(** * OperatorAgent: queue manager, block reader and report writers

    A shallow embedding of [agent/queue_manager.py], [agent/block_reader.py],
    [agent/result_writer.py] and [agent/error_writer.py], and the properties
    of them that the specification states.

    Conventions of the embedding.
    - A Python object that comes out of [json.loads] is a [value]; a [dict]
      with string keys is a finite map, so that [==] on dicts is Leibniz
      equality. JSON numbers are integers (no field of the data model is a
      fraction).
    - A Python [str] is a [string] whose characters are code points below
      256; a text file holds its decoded text.
    - A function that logs and may raise lives in the monad [M]: the log
      records it emitted, in order, and either its value or the exception.
    - The libraries the code calls ([json], [jsonschema], [datetime],
      [hashlib], the codecs) and the schema files, which are not among the
      sources, are interfaces (type classes); module [Ref] gives executable
      instances on which the examples are evaluated.
    - The calls that reach the operating system can fail; which of them do
      is an input of the functions that make them. The limits of the
      interpreter (recursion depth, memory) are not modelled. *)

From Stdlib Require Import ZArith Lia List Ascii String Permutation Sorted.
From Stdlib Require Import Floats.SpecFloat.
From stdpp Require Import gmap strings list fin_maps pretty.

Set Warnings "-register-all".
Open Scope string_scope.
Open Scope list_scope.
Open Scope Z_scope.

(** ** Python values, exceptions and the logging monad *)

Module Py.

Inductive value : Type :=
| VNone
| VBool (b : bool)
| VInt (z : Z)
| VStr (s : string)
| VList (l : list value)
| VDict (d : gmap string value).

Abbreviation dict := (gmap string value).

(** [d.get(k)] and [d.get(k, dflt)]. *)
Definition get (d : dict) (k : string) : value := default VNone (d !! k).
Definition get_default (d : dict) (k : string) (dflt : value) : value :=
  default dflt (d !! k).

(** [v == "s"] for a string literal: never raises. *)
Definition eq_str (v : value) (s : string) : bool :=
  match v with
  | VStr s' => bool_decide (s' = s)
  | _ => false
  end.

(** [v is None]. *)
Definition is_none (v : value) : bool :=
  match v with VNone => true | _ => false end.

(** [isinstance(v, int)]; [bool] is a subclass of [int]. *)
Definition as_int (v : value) : option Z :=
  match v with
  | VInt z => Some z
  | VBool b => Some (if b then 1 else 0)
  | _ => None
  end.

(** The rules of the block validator, numbered as in the specification. *)
Inductive rule : Type :=
| TextLength        (* 2 *)
| Encoding          (* 3 *)
| SizeBound         (* 4 *)
| SizeTolerance     (* 5 *)
| HashMatch         (* 6 *)
| SequenceBound.    (* 7 *)

Inductive exn : Type :=
| TypeError
| AttributeError
| OverflowError
| FileNotFoundError
| OSError
| JSONDecodeError
| ValidationError
| BlockValidationError (r : rule).

Inductive result (A : Type) : Type :=
| Ok (a : A)
| Raise (e : exn).
Arguments Ok {A} a.
Arguments Raise {A} e.

Inductive level : Type := INFO | WARNING | ERROR.

(** One constructor per message the sources log. *)
Inductive event : Type :=
| ParseFailed (idx : nat)
| InvalidEntry (idx : nat)
| Loaded (n skipped : nat)
| DatetimeUnparsed (s : string)
| NotFound (fn task_id : string)
| AlreadyIn (task_id status : string)
| CannotMark (task_id target : string) (current : value)
| Marked (task_id status : string)
| TempWriteFailed
| ReplaceFailed
| QueueSaved (path : string)
| Flagged (r : rule)
| BlockStatus (status : string)
| ResultExists (path : string)
| ResultWritten (path : string)
| ErrorWritten (path : string).

Definition log_record : Type := level * event.

Definition M (A : Type) : Type := list log_record * result A.

#[global] Instance M_ret : MRet M := λ A a, ([], Ok a).

#[global] Instance M_bind : MBind M := λ A B k m,
  match m with
  | (l, Ok a) => let '(l', r) := k a in (l ++ l', r)
  | (l, Raise e) => (l, Raise e)
  end.

Definition raise {A : Type} (e : exn) : M A := ([], Raise e).

Definition emit (lv : level) (ev : event) : M unit := ([(lv, ev)], Ok tt).

(** [for x in xs: body], threading an accumulator. *)
Fixpoint for_each {A S : Type} (body : S → A → M S) (xs : list A) (s : S) : M S :=
  match xs with
  | [] => mret s
  | x :: xs' => s' ← body s x; for_each body xs' s'
  end.

Definition raised {A : Type} (m : M A) : bool :=
  match m.2 with Ok _ => false | Raise _ => true end.

End Py.
Export Py.

(** ** Text: the string operations the sources use *)

Module Text.

Definition LF : ascii := ascii_of_nat 10.
Definition CR : ascii := ascii_of_nat 13.

Definition is_newline (c : ascii) : bool :=
  bool_decide (c = LF) || bool_decide (c = CR).

Definition is_empty (s : string) : bool :=
  match s with EmptyString => true | _ => false end.

(** [s.rstrip(chars)]. *)
Fixpoint rstrip (p : ascii → bool) (s : string) : string :=
  match s with
  | EmptyString => EmptyString
  | String c s' =>
      let r := rstrip p s' in
      if is_empty r && p c then EmptyString else String c r
  end.

(** [s.lstrip(chars)]. *)
Fixpoint lstrip (p : ascii → bool) (s : string) : string :=
  match s with
  | EmptyString => EmptyString
  | String c s' => if p c then lstrip p s' else s
  end.

(** [str.isspace] on the code points below 256. *)
Definition is_space (c : ascii) : bool :=
  let n := nat_of_ascii c in
  ((9 <=? n) && (n <=? 13) || (28 <=? n) && (n <=? 32)
   || (n =? 133) || (n =? 160))%nat.

(** [s.strip()]. *)
Definition strip (s : string) : string := lstrip is_space (rstrip is_space s).

(** [s.endswith("Z")] together with [s[:-1]]: the text before a final
    [Z], if there is one. *)
Fixpoint strip_final_Z (s : string) : option string :=
  match s with
  | EmptyString => None
  | String c EmptyString =>
      if bool_decide (c = "Z"%char) then Some EmptyString else None
  | String c s' => String c <$> strip_final_Z s'
  end.

(** [s.replace(c, "")] for a one-character [c]. *)
Fixpoint remove_char (c : ascii) (s : string) : string :=
  match s with
  | EmptyString => EmptyString
  | String c' s' =>
      if bool_decide (c' = c) then remove_char c s'
      else String c' (remove_char c s')
  end.

(** Iterating over a file opened in text mode (universal newlines): the
    lines, each with its terminator translated to a line feed; a last line
    without a terminator is yielded as it is. *)
Fixpoint text_lines_from (cur : string) (s : string) : list string :=
  match s with
  | EmptyString => if is_empty cur then [] else [cur]
  | String c s' =>
      if bool_decide (c = LF) then
        (cur +:+ String LF EmptyString) :: text_lines_from EmptyString s'
      else if bool_decide (c = CR) then
        (cur +:+ String LF EmptyString) ::
          match s' with
          | String c' s'' =>
              if bool_decide (c' = LF) then text_lines_from EmptyString s''
              else text_lines_from EmptyString s'
          | EmptyString => []
          end
      else text_lines_from (cur +:+ String c EmptyString) s'
  end.

Definition text_lines (s : string) : list string :=
  text_lines_from EmptyString s.

(** No carriage return and no line feed in [s]. *)
Fixpoint one_line (s : string) : bool :=
  match s with
  | EmptyString => true
  | String c s' => negb (is_newline c) && one_line s'
  end.

(** [str < str]: by code points. *)
Fixpoint str_ltb (a b : string) : bool :=
  match a, b with
  | _, EmptyString => false
  | EmptyString, String _ _ => true
  | String x a', String y b' =>
      let nx := nat_of_ascii x in
      let ny := nat_of_ascii y in
      (nx <? ny)%nat || ((nx =? ny)%nat && str_ltb a' b')
  end.

End Text.
Export Text.

(** ** The libraries and the schema files, as interfaces *)

Module Lib.

(** [json.loads] ([None]: [JSONDecodeError]) and
    [json.dumps(_, ensure_ascii=False)]. *)
Class JsonLib : Type := {
  json_loads : string → option value;
  json_dumps : value → string }.

(** Modelled from the spec: the files under [schemas/] are not among the
    sources. Each is the set of objects that conform to it; section 6 of
    the specification has every queue line, block, result and error report
    be one JSON object. *)
Class Schemas : Type := {
  queue_schema : dict → bool;
  block_schema : dict → bool;
  payload_schema : dict → bool;
  result_schema : dict → bool;
  error_schema : dict → bool }.

(** A [datetime.datetime]: the wall-clock fields as microseconds since
    0001-01-01T00:00:00, and the UTC offset in microseconds when the value
    is timezone-aware. *)
Record datetime : Type := {
  wall : Z;
  utcoffset : option Z }.

(** [datetime.fromisoformat] and [datetime.strptime(_, fmt)]; [None]
    stands for the exception either raises on a text it does not accept. *)
Class DateLib : Type := {
  fromisoformat : string → option datetime;
  strptime : string → string → option datetime }.

(** [text.encode(encoding, errors="strict")] ([None]: [LookupError] or
    [UnicodeEncodeError]), [text.encode("utf-8", errors="replace")] and
    [hashlib.sha256(_).hexdigest()]. *)
Class CodecLib : Type := {
  str_encode : string → string → option (list Z);
  encode_utf8_replace : string → list Z;
  sha256_hexdigest : list Z → string }.

End Lib.
Export Lib.

(** ** The file system *)

Module Fs.

(** The regular files, by path, with their text. *)
Abbreviation fs := (gmap string string).

Definition exists_ (files : fs) (path : string) : bool :=
  bool_decide (is_Some (files !! path)).

(** [Path(a) / b], on paths kept as text. *)
Definition path_join (a b : string) : string := a +:+ "/" +:+ b.

Definition concat_lines (lines : list string) : string :=
  foldr String.append EmptyString lines.

End Fs.
Export Fs.

(** ** agent/queue_manager.py *)

Module QueueManager.

Section WithLibraries.
Context `{JsonLib} `{Schemas} `{DateLib}.

(** Modelled from the spec: [jsonschema.validate(instance=entry,
    schema=_QUEUE_SCHEMA)] with the missing [queue_line.schema.json]; an
    instance that is not an object does not conform (the source, line 75:
    the entry is a valid dict per schema). [None] is [ValidationError]. *)
Definition validate_queue_entry (entry : value) : option dict :=
  match entry with
  | VDict d => if queue_schema d then Some d else None
  | _ => None
  end.

(** The body of the loop of [load_queue], lines 59-76; the state is
    [items] and [lines_processed]. *)
Definition load_line (st : list dict * nat) (il : nat * string)
  : M (list dict * nat) :=
  let '(items, lines_processed) := st in
  let '(idx, line) := il in
  let line := rstrip is_newline line in
  if is_empty line then mret (items, lines_processed)
  else
    let lines_processed := S lines_processed in
    match json_loads line with
    | None =>
        _ ← emit ERROR (ParseFailed idx); mret (items, lines_processed)
    | Some entry =>
        match validate_queue_entry entry with
        | None =>
            _ ← emit ERROR (InvalidEntry idx); mret (items, lines_processed)
        | Some d => mret (items ++ [d], lines_processed)
        end
    end.

(** [enumerate(f, start)]. *)
Definition enumerate {A : Type} (start : nat) (xs : list A) : list (nat * A) :=
  imap (λ i x, ((start + i)%nat, x)) xs.

Definition load_queue (files : fs) (path : string) : M (list dict) :=
  match files !! path with
  | None => raise FileNotFoundError
  | Some content =>
      st ← for_each load_line (enumerate 1 (text_lines content)) ([], 0%nat);
      let '(items, lines_processed) := st in
      let skipped := (lines_processed - length items)%nat in
      _ ← emit INFO (Loaded (length items) skipped);
      mret items
  end.

(** What [_parse_datetime] returns: [None], a [datetime] or a [str]. *)
Inductive stamp : Type :=
| SNone
| SDate (d : datetime)
| SStr (s : string).

Definition _parse_datetime (dt : value) : M stamp :=
  match dt with
  | VNone => mret SNone
  | VStr dt =>
      let dt := strip dt in
      if is_empty dt then mret (SStr dt)
      else
        let iso :=
          match strip_final_Z dt with
          | Some front => fromisoformat (front +:+ "+00:00")
          | None => fromisoformat dt
          end in
        match iso with
        | Some d => mret (SDate d)
        | None =>
            match strptime dt "%Y-%m-%dT%H:%M:%S" with
            | Some d => mret (SDate d)
            | None => _ ← emit WARNING (DatetimeUnparsed dt); mret (SStr dt)
            end
        end
  | _ => raise AttributeError
  end.

(** [a == b] on what [_parse_datetime] returns: never raises; a naive and
    an aware datetime are unequal, and so are values of different types. *)
Definition stamp_eqb (a b : stamp) : bool :=
  match a, b with
  | SNone, SNone => true
  | SStr s, SStr t => bool_decide (s = t)
  | SDate d, SDate e =>
      match utcoffset d, utcoffset e with
      | None, None => wall d =? wall e
      | Some o, Some p => wall d - o =? wall e - p
      | _, _ => false
      end
  | _, _ => false
  end.

(** [a < b]: [TypeError] between values of different types, on [None], and
    between a naive and an aware datetime. *)
Definition stamp_ltb (a b : stamp) : result bool :=
  match a, b with
  | SStr s, SStr t => Ok (str_ltb s t)
  | SDate d, SDate e =>
      match utcoffset d, utcoffset e with
      | None, None => Ok (wall d <? wall e)
      | Some o, Some p => Ok (wall d - o <? wall e - p)
      | _, _ => Raise TypeError
      end
  | _, _ => Raise TypeError
  end.

(** The sort key of [iter_pending], a pair, and [<] on pairs: the first
    components that differ under [==] decide. *)
Definition sort_key : Type := Z * stamp.

Definition key_ltb (a b : sort_key) : result bool :=
  if a.1 =? b.1 then
    if stamp_eqb a.2 b.2 then Ok false else stamp_ltb a.2 b.2
  else Ok (a.1 <? b.1).

(** [lambda task: (-task.get("priority", 0),
    _parse_datetime(task.get("created_at")))]. *)
Definition pending_key (task : dict) : M (sort_key * dict) :=
  match as_int (get_default task "priority" (VInt 0)) with
  | None => raise TypeError
  | Some p =>
      s ← _parse_datetime (get task "created_at");
      mret ((- p, s), task)
  end.

(** [list.sort(key=...)]: the keys are computed first, one per element in
    list order; the elements are then sorted by a stable insertion sort,
    which asks [x < y] only for [x] after [y] in the list, as CPython's
    binary insertion does, and lets an exception of [<] escape. On two
    elements the one comparison is CPython's; on keys that are comparable
    with one another every stable sort returns the same list. *)
Fixpoint insort {A : Type} (x : sort_key * A) (sorted : list (sort_key * A))
  : result (list (sort_key * A)) :=
  match sorted with
  | [] => Ok [x]
  | y :: rest =>
      match key_ltb x.1 y.1 with
      | Raise e => Raise e
      | Ok true => Ok (x :: y :: rest)
      | Ok false =>
          match insort x rest with
          | Ok rest' => Ok (y :: rest')
          | Raise e => Raise e
          end
      end
  end.

Fixpoint sort_from {A : Type} (sorted todo : list (sort_key * A))
  : result (list (sort_key * A)) :=
  match todo with
  | [] => Ok sorted
  | x :: todo' =>
      match insort x sorted with
      | Ok sorted' => sort_from sorted' todo'
      | Raise e => Raise e
      end
  end.

Definition sort_keyed {A : Type} (keyed : list (sort_key * A))
  : M (list (sort_key * A)) :=
  ([], sort_from [] keyed).

Definition is_pending (task : dict) : bool := eq_str (get task "status") "pending".

Definition iter_pending (items : list dict) : M (list dict) :=
  let pending := filter (λ task, is_pending task) items in
  keyed ← mapM pending_key pending;
  sorted ← sort_keyed keyed;
  mret (snd <$> sorted).

End WithLibraries.

(** [next((t for t in items if t.get("id") == task_id), None)], with the
    index of the task found: the assignments below change that element. *)
Definition find_task (items : list dict) (task_id : string)
  : option (nat * dict) :=
  list_find (λ t, eq_str (get t "id") task_id) items.

Definition mark_in_progress (items : list dict) (task_id : string)
  : M (list dict) :=
  match find_task items task_id with
  | None => _ ← emit ERROR (NotFound "mark_in_progress" task_id); mret items
  | Some (i, task) =>
      let current_status := get task "status" in
      if eq_str current_status "in_progress" then
        _ ← emit INFO (AlreadyIn task_id "in_progress"); mret items
      else if eq_str current_status "done" || eq_str current_status "error" then
        _ ← emit ERROR (CannotMark task_id "in_progress" current_status);
        mret items
      else
        let task := <["status" := VStr "in_progress"]> task in
        _ ← emit INFO (Marked task_id "in_progress");
        mret (<[i := task]> items)
  end.

Definition mark_done (items : list dict) (task_id result_path completed_at : string)
  : M (list dict) :=
  match find_task items task_id with
  | None => _ ← emit ERROR (NotFound "mark_done" task_id); mret items
  | Some (i, task) =>
      let current_status := get task "status" in
      if eq_str current_status "done" then
        _ ← emit INFO (AlreadyIn task_id "done"); mret items
      else if eq_str current_status "error" then
        _ ← emit ERROR (CannotMark task_id "done" current_status); mret items
      else
        let task := <["status" := VStr "done"]> task in
        let task := <["result_path" := VStr result_path]> task in
        let task := <["completed_at" := VStr completed_at]> task in
        let task := <["error_path" := VNone]> task in
        let task := <["error_msg" := VNone]> task in
        _ ← emit INFO (Marked task_id "done");
        mret (<[i := task]> items)
  end.

Definition mark_error (items : list dict)
  (task_id error_msg error_path completed_at : string) : M (list dict) :=
  match find_task items task_id with
  | None => _ ← emit ERROR (NotFound "mark_error" task_id); mret items
  | Some (i, task) =>
      let current_status := get task "status" in
      if eq_str current_status "error" then
        _ ← emit INFO (AlreadyIn task_id "error"); mret items
      else if eq_str current_status "done" then
        _ ← emit ERROR (CannotMark task_id "error" current_status); mret items
      else
        let task := <["status" := VStr "error"]> task in
        let task := <["error_msg" := VStr error_msg]> task in
        let task := <["error_path" := VStr error_path]> task in
        let task := <["completed_at" := VStr completed_at]> task in
        let task := <["result_path" := VNone]> task in
        _ ← emit INFO (Marked task_id "error");
        mret (<[i := task]> items)
  end.

End QueueManager.
Export QueueManager.

(** *** [save_queue_atomic] *)

Module Save.

(** The calls of [save_queue_atomic] that reach the operating system can
    each raise [OSError]; which of them do, and the name the temporary file
    gets, are inputs of the model. *)
Record io_plan : Type := {
  tmp_name : string;           (* NamedTemporaryFile(...).name *)
  create_fails : bool;         (* NamedTemporaryFile(...) *)
  write_fails : option nat;    (* tmp_file.write, at the record of that index *)
  flush_fails : bool;          (* tmp_file.flush() *)
  fsync_fails : bool;          (* os.fsync(...) *)
  close_fails : bool;          (* tmp_file.close() *)
  remove_fails : bool;         (* os.remove(...) *)
  replace_fails : bool }.      (* os.replace(...) *)

Definition newline : string := String LF EmptyString.

(** The loop of lines 256-257: the text that reached the temporary file,
    and whether a write raised. *)
Definition write_records (io : io_plan) (lines : list string) : string * bool :=
  match write_fails io with
  | Some k =>
      if (k <? length lines)%nat then (concat_lines (take k lines), true)
      else (concat_lines lines, false)
  | None => (concat_lines lines, false)
  end.

(** [os.remove(tmp)] inside [try: ... except Exception: pass]. *)
Definition remove_quietly (io : io_plan) (tmp : string) (files : fs) : fs :=
  if remove_fails io then files else delete tmp files.

Section WithLibraries.
Context `{JsonLib}.

Definition save_queue_atomic (io : io_plan) (files : fs) (path : string)
  (items : list dict) : fs * M unit :=
  if create_fails io then
    (* lines 261-272 with tmp_file still None *)
    (files, _ ← emit ERROR TempWriteFailed; raise OSError)
  else
    let tmp := tmp_name io in
    let lines := (λ task, json_dumps (VDict task) +:+ newline) <$> items in
    let '(written, failed) := write_records io lines in
    let files := <[tmp := written]> files in
    if failed || flush_fails io || fsync_fails io then
      (* lines 261-272: close, remove, both with their exceptions
         swallowed, and raise again; the close of line 275 finds the file
         closed *)
      (remove_quietly io tmp files,
       _ ← emit ERROR TempWriteFailed; raise OSError)
    else if close_fails io then
      (* lines 273-275: the close of the finally clause raises *)
      (files, raise OSError)
    else if replace_fails io then
      (* lines 279-285 *)
      (remove_quietly io tmp files,
       _ ← emit ERROR ReplaceFailed; raise OSError)
    else
      (* line 277: the rename *)
      (<[path := written]> (delete tmp files), emit INFO (QueueSaved path)).

End WithLibraries.

End Save.
Export Save.

(** ** agent/block_reader.py *)

Module BlockReader.

(** Python's [float] is binary64. *)
Definition prec : Z := 53.
Definition emax : Z := 1024.

(** The literal [0.08]: the nearest binary64,
    5764607523034235 * 2^-56. *)
Definition c_0_08 : spec_float := S754_finite false 5764607523034235 (-56).

(** [float(z)]: rounded to nearest even; [OverflowError] beyond the range. *)
Definition float_of_int (z : Z) : result spec_float :=
  match binary_normalize prec emax z 0 false with
  | S754_infinity _ => Raise OverflowError
  | f => Ok f
  end.

(** [z * f] for an [int] and a [float]. *)
Definition int_mul_float (z : Z) (f : spec_float) : M spec_float :=
  match float_of_int z with
  | Ok x => mret (SFmul prec emax x f)
  | Raise e => raise e
  end.

(** [z > f] for an [int] and a [float]: Python compares the two exactly. *)
Definition int_gt_float (z : Z) (f : spec_float) : bool :=
  match f with
  | S754_zero _ => 0 <? z
  | S754_finite s m e =>
      let v := if s then Z.neg m else Z.pos m in
      if 0 <=? e then v * 2 ^ e <? z else v <? z * 2 ^ (- e)
  | S754_infinity s => s
  | S754_nan => false
  end.

(** [len(v)], where [v] has a length. *)
Definition py_len (v : value) : option nat :=
  match v with
  | VStr s => Some (String.length s)
  | VList l => Some (length l)
  | VDict d => Some (size d)
  | _ => None
  end.

(** A flagged condition: raised in strict mode, a warning otherwise. *)
Definition flag (strict : bool) (r : rule) : M unit :=
  if strict then _ ← emit ERROR (Flagged r); raise (BlockValidationError r)
  else emit WARNING (Flagged r).

Definition when (b : bool) (m : M unit) : M unit := if b then m else mret tt.

Section WithLibraries.
Context `{JsonLib} `{Schemas} `{CodecLib}.

Definition validate_block (obj : dict) (strict : bool) : M unit :=
  if negb (block_schema obj) then raise ValidationError
  else
    let text := get_default obj "text" (VStr "") in
    let encoding := get_default obj "encoding" (VStr "utf-8") in
    let recorded_size := get_default obj "size_bytes" (VInt 0) in
    let recorded_hash := get_default obj "hash_sha256" (VStr "") in
    let seq := get obj "seq" in
    let total_seqs := get obj "total_seqs" in
    (* 1. text length *)
    text_length ← match py_len text with
                   | Some n => mret (Z.of_nat n)
                   | None => raise TypeError
                   end;
    _ ← when (20000 <? text_length) (flag strict TextLength);
    (* 6. encoding *)
    encoded_bytes ← match text, encoding with
                     | VStr text, VStr encoding =>
                         match str_encode encoding text with
                         | Some bytes => mret bytes
                         | None =>
                             _ ← flag strict Encoding;
                             mret (encode_utf8_replace text)
                         end
                     | VStr _, _ => raise TypeError
                     | _, _ => raise AttributeError
                     end;
    let computed_size := Z.of_nat (length encoded_bytes) in
    (* 2. size in bytes *)
    _ ← when (1048576 <? computed_size) (flag strict SizeBound);
    recorded_size ← match as_int recorded_size with
                     | Some z => mret z
                     | None => raise TypeError
                     end;
    let size_diff := Z.abs (computed_size - recorded_size) in
    allow_diff ← int_mul_float recorded_size c_0_08;
    let significant_mismatch :=
      if recorded_size =? 0 then negb (computed_size =? 0)
      else int_gt_float size_diff allow_diff in
    _ ← when significant_mismatch (flag strict SizeTolerance);
    (* 3. hash *)
    let computed_hash := sha256_hexdigest encoded_bytes in
    _ ← when (negb (eq_str recorded_hash computed_hash)) (flag strict HashMatch);
    (* 4. sequence *)
    _ ← match as_int seq, as_int total_seqs with
        | Some seq, Some total_seqs =>
            when (negb ((1 <=? seq) && (seq <=? total_seqs)))
              (flag strict SequenceBound)
        | _, _ => mret tt
        end;
    (* 5. status: membership in a set hashes the value *)
    match get obj "status" with
    | VList _ | VDict _ => raise TypeError
    | VStr status =>
        when (bool_decide (status = "damaged") || bool_decide (status = "binary"))
          (emit WARNING (BlockStatus status))
    | _ => mret tt
    end.

Definition read_block (files : fs) (path : string) : M dict :=
  match files !! path with
  | None => raise FileNotFoundError
  | Some content =>
      match json_loads content with
      | None => raise JSONDecodeError
      | Some (VDict data) =>
          let status := get data "status" in
          let strict := if eq_str status "ok" then true else false in
          _ ← validate_block data strict;
          mret data
      | Some _ => raise JSONDecodeError
      end
  end.

End WithLibraries.

End BlockReader.
Export BlockReader.

(** ** agent/result_writer.py and agent/error_writer.py *)

Module Writers.

(** The calls of the writers that can raise [OSError]. *)
Record out_plan : Type := {
  mkdir_fails : bool;      (* Path.mkdir(parents=True, exist_ok=True) *)
  dump_fails : bool;       (* open(..., "w") and json.dump *)
  unlink_fails : bool }.   (* Path.unlink() *)

Section WithLibraries.
Context `{JsonLib} `{Schemas}.

Definition write_result (io : out_plan) (files : fs)
  (base_dir block_id model analysis_version : string) (analysis_obj : dict)
  (completed_at_iso : string) : fs * M string :=
  if negb (payload_schema analysis_obj) then (files, raise ValidationError)
  else
    let result : dict :=
      <["block_id" := VStr block_id]>
      (<["model" := VStr model]>
      (<["completed_at" := VStr completed_at_iso]>
      (<["analysis_version" := VStr analysis_version]>
      (<["analysis" := VDict analysis_obj]> ∅)))) in
    if negb (result_schema result) then (files, raise ValidationError)
    else
      let out_dir := path_join (path_join base_dir "Archive") "AnalysisResults" in
      let out_path := path_join out_dir (block_id +:+ ".json") in
      if mkdir_fails io then (files, raise OSError)
      else if exists_ files out_path then
        (files, _ ← emit INFO (ResultExists out_path); mret out_path)
      else if dump_fails io then
        (* lines 111-118: the partial file is unlinked, best effort *)
        (if unlink_fails io then <[out_path := ""]> files else files,
         raise OSError)
      else
        (<[out_path := json_dumps (VDict result)]> files,
         _ ← emit INFO (ResultWritten out_path); mret out_path).

Definition write_error (io : out_plan) (files : fs)
  (base_dir block_id task_id error_type error_detail : string)
  (response_text : option string) (timestamp_iso : string) : fs * M string :=
  let error_obj : dict :=
    <["block_id" := VStr block_id]>
    (<["task_id" := VStr task_id]>
    (<["error_type" := VStr error_type]>
    (<["error_detail" := VStr error_detail]>
    (<["response_text" := from_option VStr VNone response_text]>
    (<["timestamp" := VStr timestamp_iso]> ∅))))) in
  if negb (error_schema error_obj) then (files, raise ValidationError)
  else
    let errors_dir := path_join (path_join base_dir "Archive") "AnalysisErrors" in
    if mkdir_fails io then (files, raise OSError)
    else
      let base_file := path_join errors_dir (block_id +:+ ".json") in
      let out_path :=
        if exists_ files base_file then
          let suffix_ts :=
            remove_char ":"%char (remove_char "-"%char timestamp_iso) in
          let file_name := block_id +:+ "__" +:+ suffix_ts +:+ ".json" in
          path_join errors_dir file_name
        else base_file in
      if dump_fails io then (<[out_path := ""]> files, raise OSError)
      else
        (<[out_path := json_dumps (VDict error_obj)]> files,
         _ ← emit INFO (ErrorWritten out_path); mret out_path).

End WithLibraries.

End Writers.
Export Writers.

(** ** Executable instances of the interfaces

    The examples below are evaluated on these. Each follows the library it
    stands for on the inputs the examples use; the theorems about the
    sources hold for every instance. *)

Module Ref.

(** *** JSON *)

Definition dquote : ascii := ascii_of_nat 34.
Definition backslash : ascii := ascii_of_nat 92.

Definition hex_digit (n : nat) : ascii :=
  nth n (list_ascii_of_string "0123456789abcdef") "0"%char.

(** The escapes of [json.dumps(_, ensure_ascii=False)]. *)
Definition escape_char (c : ascii) : string :=
  let n := nat_of_ascii c in
  if (n =? 34)%nat then String backslash (String dquote EmptyString)
  else if (n =? 92)%nat then String backslash (String backslash EmptyString)
  else if (n =? 10)%nat then String backslash "n"
  else if (n =? 13)%nat then String backslash "r"
  else if (n =? 9)%nat then String backslash "t"
  else if (n =? 8)%nat then String backslash "b"
  else if (n =? 12)%nat then String backslash "f"
  else if (n <? 32)%nat then
    String backslash
      ("u00" +:+ String (hex_digit (n / 16)) (String (hex_digit (n mod 16)) EmptyString))
  else String c EmptyString.

Fixpoint escape (s : string) : string :=
  match s with
  | EmptyString => EmptyString
  | String c s' => escape_char c +:+ escape s'
  end.

Definition dumps_str (s : string) : string :=
  String dquote (escape s +:+ String dquote EmptyString).

Fixpoint join (sep : string) (parts : list string) : string :=
  match parts with
  | [] => EmptyString
  | [p] => p
  | p :: rest => p +:+ sep +:+ join sep rest
  end.

(** [json.dumps]; the members of an object are written in the order the
    map enumerates them (a Python dict writes them in insertion order,
    which Python's [==] on dicts, and so the model of a dict, ignore). *)
Fixpoint dumps (v : value) : string :=
  match v with
  | VNone => "null"
  | VBool b => if b then "true" else "false"
  | VInt z => pretty z
  | VStr s => dumps_str s
  | VList l => "[" +:+ join ", " (map dumps l) +:+ "]"
  | VDict d =>
      "{" +:+ join ", " ((λ kv, dumps_str kv.1 +:+ ": " +:+ kv.2)
                           <$> map_to_list (dumps <$> d)) +:+ "}"
  end.

Definition json_ws (c : ascii) : bool :=
  let n := nat_of_ascii c in
  ((n =? 32) || (n =? 9) || (n =? 10) || (n =? 13))%nat.

Definition skip_ws (s : string) : string := lstrip json_ws s.

Fixpoint strip_prefix (p s : string) : option string :=
  match p, s with
  | EmptyString, _ => Some s
  | String a p', String b s' =>
      if bool_decide (a = b) then strip_prefix p' s' else None
  | _, _ => None
  end.

(** The text of a string literal up to its closing quote, escapes not yet
    decoded, and what follows the quote. *)
Fixpoint scan_str (s : string) : option (string * string) :=
  match s with
  | EmptyString => None
  | String c s' =>
      if bool_decide (c = dquote) then Some (EmptyString, s')
      else if bool_decide (c = backslash) then
        match s' with
        | String e s'' =>
            match scan_str s'' with
            | Some (body, rest) => Some (String c (String e body), rest)
            | None => None
            end
        | EmptyString => None
        end
      else
        match scan_str s' with
        | Some (body, rest) => Some (String c body, rest)
        | None => None
        end
  end.

Definition hex_value (c : ascii) : option nat :=
  let n := nat_of_ascii c in
  if ((48 <=? n) && (n <=? 57))%nat then Some (n - 48)%nat
  else if ((97 <=? n) && (n <=? 102))%nat then Some (n - 87)%nat
  else if ((65 <=? n) && (n <=? 70))%nat then Some (n - 55)%nat
  else None.

Definition simple_escape (e : ascii) : option ascii :=
  let n := nat_of_ascii e in
  if (n =? 34)%nat then Some dquote
  else if (n =? 92)%nat then Some backslash
  else if (n =? 47)%nat then Some "/"%char
  else if (n =? 110)%nat then Some LF
  else if (n =? 114)%nat then Some CR
  else if (n =? 116)%nat then Some (ascii_of_nat 9)
  else if (n =? 98)%nat then Some (ascii_of_nat 8)
  else if (n =? 102)%nat then Some (ascii_of_nat 12)
  else None.

(** Decoding the escapes; a control character or an escape for a code
    point from 256 on is refused. *)
Fixpoint unescape (s : string) : option string :=
  match s with
  | EmptyString => Some EmptyString
  | String c s' =>
      if bool_decide (c = backslash) then
        match s' with
        | String e s'' =>
            if bool_decide (e = "u"%char) then
              match s'' with
              | String h1 (String h2 (String h3 (String h4 s3))) =>
                  match hex_value h1, hex_value h2, hex_value h3, hex_value h4 with
                  | Some 0%nat, Some 0%nat, Some a, Some b =>
                      String (ascii_of_nat (16 * a + b)) <$> unescape s3
                  | _, _, _, _ => None
                  end
              | _ => None
              end
            else
              match simple_escape e with
              | Some ch => String ch <$> unescape s''
              | None => None
              end
        | EmptyString => None
        end
      else if (nat_of_ascii c <? 32)%nat then None
      else String c <$> unescape s'
  end.

Definition is_digit (c : ascii) : bool :=
  let n := nat_of_ascii c in ((48 <=? n) && (n <=? 57))%nat.

Fixpoint take_digits (s : string) : list Z * string :=
  match s with
  | String c s' =>
      if is_digit c then
        let '(ds, rest) := take_digits s' in
        (Z.of_nat (nat_of_ascii c - 48) :: ds, rest)
      else ([], s)
  | EmptyString => ([], s)
  end.

Definition digits_value (ds : list Z) : Z := foldl (λ acc d, 10 * acc + d) 0 ds.

(** An integer literal; a fraction or an exponent is refused. *)
Definition parse_int (s : string) : option (value * string) :=
  let '(negative, s1) :=
    match strip_prefix "-" s with
    | Some r => (true, r)
    | None => (false, s)
    end in
  let '(ds, rest) := take_digits s1 in
  let fractional :=
    match rest with
    | String c _ =>
        bool_decide (c = "."%char) || bool_decide (c = "e"%char)
        || bool_decide (c = "E"%char)
    | EmptyString => false
    end in
  match ds with
  | [] => None
  | 0 :: _ :: _ => None
  | _ =>
      if fractional then None
      else Some (VInt (if negative then - digits_value ds else digits_value ds), rest)
  end.

Definition parse_literal (s : string) : option (value * string) :=
  match strip_prefix "null" s with
  | Some r => Some (VNone, r)
  | None =>
      match strip_prefix "true" s with
      | Some r => Some (VBool true, r)
      | None =>
          match strip_prefix "false" s with
          | Some r => Some (VBool false, r)
          | None => parse_int s
          end
      end
  end.

Definition parse_key (s : string) : option (string * string) :=
  match s with
  | String c s1 =>
      if bool_decide (c = dquote) then
        match scan_str s1 with
        | Some (raw, rest) =>
            match unescape raw with
            | Some k => Some (k, rest)
            | None => None
            end
        | None => None
        end
      else None
  | EmptyString => None
  end.

(** A value at the head of [s], after white space, and the rest of [s];
    every call consumes a character, so fuel beyond twice the length of
    the text is never used up. *)
Fixpoint parse_value (fuel : nat) (s : string) : option (value * string) :=
  match fuel with
  | O => None
  | S fuel =>
      match skip_ws s with
      | String c s1 =>
          if bool_decide (c = "["%char) then
            match skip_ws s1 with
            | String c' s2 =>
                if bool_decide (c' = "]"%char) then Some (VList [], s2)
                else parse_elems fuel [] (skip_ws s1)
            | EmptyString => None
            end
          else if bool_decide (c = "{"%char) then
            match skip_ws s1 with
            | String c' s2 =>
                if bool_decide (c' = "}"%char) then Some (VDict ∅, s2)
                else parse_members fuel ∅ (skip_ws s1)
            | EmptyString => None
            end
          else if bool_decide (c = dquote) then
            match parse_key (String c s1) with
            | Some (str, rest) => Some (VStr str, rest)
            | None => None
            end
          else parse_literal (String c s1)
      | EmptyString => None
      end
  end
with parse_elems (fuel : nat) (acc : list value) (s : string)
  : option (value * string) :=
  match fuel with
  | O => None
  | S fuel =>
      match parse_value fuel s with
      | Some (v, rest) =>
          match skip_ws rest with
          | String c rest' =>
              if bool_decide (c = ","%char) then parse_elems fuel (acc ++ [v]) rest'
              else if bool_decide (c = "]"%char) then Some (VList (acc ++ [v]), rest')
              else None
          | EmptyString => None
          end
      | None => None
      end
  end
with parse_members (fuel : nat) (acc : gmap string value) (s : string)
  : option (value * string) :=
  match fuel with
  | O => None
  | S fuel =>
      match parse_key (skip_ws s) with
      | Some (k, rest) =>
          match skip_ws rest with
          | String c rest1 =>
              if bool_decide (c = ":"%char) then
                match parse_value fuel rest1 with
                | Some (v, rest2) =>
                    match skip_ws rest2 with
                    | String c' rest3 =>
                        if bool_decide (c' = ","%char) then
                          parse_members fuel (<[k := v]> acc) rest3
                        else if bool_decide (c' = "}"%char) then
                          Some (VDict (<[k := v]> acc), rest3)
                        else None
                    | EmptyString => None
                    end
                | None => None
                end
              else None
          | EmptyString => None
          end
      | None => None
      end
  end.

(** [json.loads]. *)
Definition loads (s : string) : option value :=
  match parse_value (2 * String.length s + 2) s with
  | Some (v, rest) => if is_empty (skip_ws rest) then Some v else None
  | None => None
  end.

Definition json : JsonLib := {| json_loads := loads; json_dumps := dumps |}.

(** *** Schemas *)

Definition has_str (d : dict) (k : string) : bool :=
  match d !! k with Some (VStr _) => true | _ => false end.

Definition has_int (d : dict) (k : string) : bool :=
  match d !! k with Some (VInt _) => true | _ => false end.

Definition opt_int (d : dict) (k : string) : bool :=
  match d !! k with Some (VInt _) | None => true | _ => false end.

Definition opt_str (d : dict) (k : string) : bool :=
  match d !! k with Some (VStr _) | None => true | _ => false end.

Definition opt_str_or_null (d : dict) (k : string) : bool :=
  match d !! k with Some (VStr _) | Some VNone | None => true | _ => false end.

Definition one_of (d : dict) (k : string) (allowed : list string) : bool :=
  match d !! k with
  | Some (VStr s) => bool_decide (s ∈ allowed)
  | _ => false
  end.

(** Modelled from the spec: the schema files are not among the sources;
    these accept the objects with the fields of section 3 (TaskRecord,
    BlockRecord) and section 6 (result and error files) of the
    specification. *)
Definition schemas : Schemas := {|
  queue_schema d :=
    has_str d "id"
    && one_of d "status" ["pending"; "in_progress"; "done"; "error"]
    && opt_int d "priority" && opt_str d "created_at"
    && opt_str_or_null d "result_path" && opt_str_or_null d "error_path"
    && opt_str_or_null d "error_msg" && opt_str_or_null d "completed_at";
  block_schema d :=
    has_str d "block_id" && has_int d "seq" && has_int d "total_seqs"
    && has_str d "text" && has_str d "encoding" && has_int d "size_bytes"
    && has_str d "hash_sha256" && one_of d "status" ["ok"; "damaged"; "binary"];
  payload_schema d := has_str d "summary";
  result_schema d :=
    has_str d "block_id" && has_str d "model" && has_str d "completed_at"
    && has_str d "analysis_version"
    && match d !! "analysis" with Some (VDict _) => true | _ => false end;
  error_schema d :=
    has_str d "block_id" && has_str d "task_id" && has_str d "error_type"
    && has_str d "error_detail" && opt_str_or_null d "response_text"
    && has_str d "timestamp" |}.

(** *** Dates *)

(** Up to [n] decimal digits at the head of the text, at least [m]. *)
Fixpoint digits_upto (n : nat) (s : string) : list Z * string :=
  match n, s with
  | S n', String c s' =>
      if is_digit c then
        let '(ds, rest) := digits_upto n' s' in
        (Z.of_nat (nat_of_ascii c - 48) :: ds, rest)
      else ([], s)
  | _, _ => ([], s)
  end.

Definition number (m n : nat) (s : string) : option (Z * string) :=
  let '(ds, rest) := digits_upto n s in
  if (m <=? length ds)%nat then Some (digits_value ds, rest) else None.

Definition is_leap (y : Z) : bool :=
  (y mod 4 =? 0) && (negb (y mod 100 =? 0) || (y mod 400 =? 0)).

Definition days_in_month (y m : Z) : Z :=
  if m =? 2 then (if is_leap y then 29 else 28)
  else if (m =? 4) || (m =? 6) || (m =? 9) || (m =? 11) then 30
  else 31.

(** Days from 0001-01-01 to the given day of the proleptic Gregorian
    calendar. *)
Definition days_before (y m d : Z) : Z :=
  let y' := if m <=? 2 then y - 1 else y in
  let era := y' / 400 in
  let yoe := y' - era * 400 in
  let doy := (153 * (if 2 <? m then m - 3 else m + 9) + 2) / 5 + d - 1 in
  era * 146097 + (yoe * 365 + yoe / 4 - yoe / 100 + doy) - 306.

Definition make_datetime (y mo d h mi s : Z) (off : option Z) : option datetime :=
  if (1 <=? y) && (y <=? 9999) && (1 <=? mo) && (mo <=? 12)
     && (1 <=? d) && (d <=? days_in_month y mo)
     && (h <=? 23) && (mi <=? 59) && (s <=? 59)
  then Some {| wall := (((days_before y mo d * 24 + h) * 60 + mi) * 60 + s) * 1000000;
               utcoffset := off |}
  else None.

(** The fields [Y-M-DxH:M:S], each of [m] to two digits ([Y]: four). *)
Definition date_time_fields (m : nat) (any_sep : bool) (s : string)
  : option (Z * Z * Z * Z * Z * Z * string) :=
  '(y, s) ← number 4 4 s;
  s ← strip_prefix "-" s;
  '(mo, s) ← number m 2 s;
  s ← strip_prefix "-" s;
  '(d, s) ← number m 2 s;
  s ← (if any_sep then match s with String _ r => Some r | _ => None end
       else strip_prefix "T" s);
  '(h, s) ← number m 2 s;
  s ← strip_prefix ":" s;
  '(mi, s) ← number m 2 s;
  s ← strip_prefix ":" s;
  '(sec, s) ← number m 2 s;
  Some (y, mo, d, h, mi, sec, s).

(** A UTC offset [+HH:MM] or [-HH:MM], in microseconds. *)
Definition utc_offset (s : string) : option Z :=
  match s with
  | String sign s =>
      if bool_decide (sign = "+"%char) || bool_decide (sign = "-"%char) then
        '(h, s) ← number 2 2 s;
        s ← strip_prefix ":" s;
        '(mi, s) ← number 2 2 s;
        if is_empty s && (h <=? 23) && (mi <=? 59) then
          let us := (h * 60 + mi) * 60 * 1000000 in
          Some (if bool_decide (sign = "-"%char) then - us else us)
        else None
      else None
  | EmptyString => None
  end.

(** [datetime.fromisoformat] on the texts [YYYY-MM-DD],
    [YYYY-MM-DD*HH:MM:SS] and the latter followed by a UTC offset; other
    texts are refused. *)
Definition iso (s : string) : option datetime :=
  match date_time_fields 2 true s with
  | Some (y, mo, d, h, mi, sec, rest) =>
      if is_empty rest then make_datetime y mo d h mi sec None
      else off ← utc_offset rest; make_datetime y mo d h mi sec (Some off)
  | None =>
      '(y, s) ← number 4 4 s;
      s ← strip_prefix "-" s;
      '(mo, s) ← number 2 2 s;
      s ← strip_prefix "-" s;
      '(d, s) ← number 2 2 s;
      if is_empty s then make_datetime y mo d 0 0 0 None else None
  end.

(** [datetime.strptime] for the one format the sources use. *)
Definition strp (s fmt : string) : option datetime :=
  if bool_decide (fmt = "%Y-%m-%dT%H:%M:%S") then
    match date_time_fields 1 false s with
    | Some (y, mo, d, h, mi, sec, rest) =>
        if is_empty rest then make_datetime y mo d h mi sec None else None
    | None => None
    end
  else None.

Definition dates : DateLib := {| fromisoformat := iso; strptime := strp |}.

(** *** Codecs and SHA-256 *)

Definition code_points (s : string) : list Z :=
  (λ c, Z.of_nat (nat_of_ascii c)) <$> list_ascii_of_string s.

Definition utf8_of_point (n : Z) : list Z :=
  if n <? 128 then [n] else [Z.lor 192 (Z.shiftr n 6); Z.lor 128 (Z.land n 63)].

(** [str.encode] for UTF-8, ASCII and Latin-1 under their usual names;
    another name is an unknown codec. *)
Definition encode_text (encoding text : string) : option (list Z) :=
  let points := code_points text in
  if bool_decide (encoding ∈ ["utf-8"; "utf8"; "UTF-8"]) then
    Some (points ≫= utf8_of_point)
  else if bool_decide (encoding ∈ ["ascii"; "us-ascii"]) then
    if forallb (λ n, n <? 128) points then Some points else None
  else if bool_decide (encoding ∈ ["latin-1"; "latin1"; "iso-8859-1"]) then
    Some points
  else None.

Definition w32 (x : Z) : Z := x mod 2 ^ 32.

Definition rotr (n x : Z) : Z :=
  Z.lor (Z.shiftr x n) (w32 (Z.shiftl x (32 - n))).

(** The round constants and the initial state: the first 32 bits of the
    fractional parts of the cube roots of the first 64 primes, and of the
    square roots of the first 8. *)
Definition is_prime (n : nat) : bool :=
  forallb (λ d, negb (n mod d =? 0)%nat) (seq 2 (n - 2)).

Definition primes : list Z := Z.of_nat <$> filter (λ n, is_prime n) (seq 2 310).

(** The largest [r] below [2 ^ bits] with [r ^ 3 <= n]. *)
Fixpoint cube_root (bits : nat) (n r : Z) : Z :=
  match bits with
  | O => r
  | S bits' =>
      let r' := r + 2 ^ Z.of_nat bits' in
      cube_root bits' n (if r' * r' * r' <=? n then r' else r)
  end.

Definition sha_k : list Z :=
  Eval vm_compute in (λ p, cube_root 36 (p * 2 ^ 96) 0 mod 2 ^ 32) <$> primes.

Definition sha_h0 : list Z :=
  Eval vm_compute in (λ p, Z.sqrt (p * 2 ^ 64) mod 2 ^ 32) <$> take 8 primes.

(** The message with its padding: a one bit, zeros, and the length in
    bits as a 64-bit big-endian number. *)
Definition big_endian (width : nat) (x : Z) : list Z :=
  (λ i, Z.land (Z.shiftr x (8 * Z.of_nat (width - 1 - i))) 255) <$> seq 0 width.

Definition sha_pad (msg : list Z) : list Z :=
  let len := Z.of_nat (length msg) in
  let zeros := Z.to_nat ((55 - len) mod 64) in
  msg ++ [128] ++ replicate zeros 0 ++ big_endian 8 (8 * len).

Fixpoint words_of (fuel : nat) (bytes : list Z) : list Z :=
  match fuel, bytes with
  | S fuel, a :: b :: c :: d :: rest =>
      (((a * 256 + b) * 256 + c) * 256 + d) :: words_of fuel rest
  | _, _ => []
  end.

(** The message schedule, latest word first. *)
Fixpoint schedule (n : nat) (ws : list Z) : list Z :=
  match n with
  | O => ws
  | S n' =>
      let w i := nth i ws 0 in
      let s0 := Z.lxor (Z.lxor (rotr 7 (w 14%nat)) (rotr 18 (w 14%nat)))
                  (Z.shiftr (w 14%nat) 3) in
      let s1 := Z.lxor (Z.lxor (rotr 17 (w 1%nat)) (rotr 19 (w 1%nat)))
                  (Z.shiftr (w 1%nat) 10) in
      schedule n' (w32 (w 15%nat + s0 + w 6%nat + s1) :: ws)
  end.

Definition sha_round (st : list Z) (kw : Z * Z) : list Z :=
  match st with
  | [a; b; c; d; e; f; g; h] =>
      let s1 := Z.lxor (Z.lxor (rotr 6 e) (rotr 11 e)) (rotr 25 e) in
      let ch := Z.lxor (Z.land e f) (Z.land (Z.lxor e (2 ^ 32 - 1)) g) in
      let t1 := w32 (h + s1 + ch + kw.1 + kw.2) in
      let s0 := Z.lxor (Z.lxor (rotr 2 a) (rotr 13 a)) (rotr 22 a) in
      let maj := Z.lxor (Z.lxor (Z.land a b) (Z.land a c)) (Z.land b c) in
      let t2 := w32 (s0 + maj) in
      [w32 (t1 + t2); a; b; c; w32 (d + t1); e; f; g]
  | _ => st
  end.

Definition sha_block (st : list Z) (block : list Z) : list Z :=
  let ws := rev (schedule 48 (rev (words_of 16 block))) in
  let st' := foldl sha_round st (zip sha_k ws) in
  zip_with (λ x y, w32 (x + y)) st st'.

Fixpoint sha_blocks (fuel : nat) (st : list Z) (bytes : list Z) : list Z :=
  match fuel, bytes with
  | S fuel, _ :: _ => sha_blocks fuel (sha_block st (take 64 bytes)) (drop 64 bytes)
  | _, _ => st
  end.

Definition hex_of_byte (b : Z) : string :=
  String (hex_digit (Z.to_nat (b / 16)))
    (String (hex_digit (Z.to_nat (b mod 16))) EmptyString).

(** [hashlib.sha256(bytes).hexdigest()]. *)
Definition sha256 (msg : list Z) : string :=
  let padded := sha_pad msg in
  let st := sha_blocks (length padded) sha_h0 padded in
  join "" (hex_of_byte <$> (st ≫= big_endian 4)).

Definition codecs : CodecLib := {|
  str_encode := encode_text;
  encode_utf8_replace text := code_points text ≫= utf8_of_point;
  sha256_hexdigest := sha256 |}.

End Ref.

(** ** The task lifecycle, as the specification words it *)

Module Lifecycle.

(** The three transitions, with the arguments of the calls. *)
Inductive transition : Type :=
| Start
| Complete (result_path completed_at : string)
| Fail (error_msg error_path completed_at : string).

Definition run (tr : transition) (items : list dict) (task_id : string)
  : M (list dict) :=
  match tr with
  | Start => mark_in_progress items task_id
  | Complete result_path completed_at =>
      mark_done items task_id result_path completed_at
  | Fail error_msg error_path completed_at =>
      mark_error items task_id error_msg error_path completed_at
  end.

Inductive outcome : Type := Missing | NoOp | Rejected | Mutated.

(** Section 4.3 of the specification: the outcome of a transition asked
    of a task in a given status. *)
Definition table (tr : transition) (status : value) : outcome :=
  match tr with
  | Start =>
      if eq_str status "in_progress" then NoOp
      else if eq_str status "done" || eq_str status "error" then Rejected
      else Mutated
  | Complete _ _ =>
      if eq_str status "done" then NoOp
      else if eq_str status "error" then Rejected
      else Mutated
  | Fail _ _ _ =>
      if eq_str status "error" then NoOp
      else if eq_str status "done" then Rejected
      else Mutated
  end.

(** What a call reported, read off the records it logged. *)
Definition reported (log : list log_record) : option outcome :=
  match log with
  | [(ERROR, NotFound _ _)] => Some Missing
  | [(INFO, AlreadyIn _ _)] => Some NoOp
  | [(ERROR, CannotMark _ _ _)] => Some Rejected
  | [(INFO, Marked _ _)] => Some Mutated
  | _ => None
  end.

(** The record a transition makes of a task it accepts. *)
Definition updated (tr : transition) (task : dict) : dict :=
  match tr with
  | Start => <["status" := VStr "in_progress"]> task
  | Complete result_path completed_at =>
      <["error_msg" := VNone]>
      (<["error_path" := VNone]>
      (<["completed_at" := VStr completed_at]>
      (<["result_path" := VStr result_path]>
      (<["status" := VStr "done"]> task))))
  | Fail error_msg error_path completed_at =>
      <["result_path" := VNone]>
      (<["completed_at" := VStr completed_at]>
      (<["error_path" := VStr error_path]>
      (<["error_msg" := VStr error_msg]>
      (<["status" := VStr "error"]> task))))
  end.

Definition non_null (task : dict) (k : string) : bool :=
  negb (is_none (get task k)).

Definition has_status (task : dict) (s : string) : bool :=
  eq_str (get task "status") s.

(** Section 3 of the specification: the status of a TaskRecord is one of
    four. *)
Definition is_task_record (task : dict) : bool :=
  has_status task "pending" || has_status task "in_progress"
  || has_status task "done" || has_status task "error".

(** Section 3 of the specification: exactly one of [result_path] and
    [error_path] is non-null once the status is terminal; both are null
    while it is [pending] or [in_progress]. *)
Definition paths_invariant (task : dict) : bool :=
  (if has_status task "done" || has_status task "error"
   then xorb (non_null task "result_path") (non_null task "error_path")
   else true)
  && (if has_status task "pending" || has_status task "in_progress"
      then negb (non_null task "result_path") && negb (non_null task "error_path")
      else true).

Definition well_formed (task : dict) : Prop :=
  is_task_record task = true ∧ paths_invariant task = true.

(** The fields of a TaskRecord that section 8 compares. *)
Definition fields (task : dict) : list value :=
  get task <$> ["id"; "status"; "priority"; "created_at"; "result_path";
                "error_path"; "error_msg"; "completed_at"].

End Lifecycle.
Export Lifecycle.

(** ** The queue file, as the specification words it *)

Module Store.

Section WithLibraries.
Context `{JsonLib} `{Schemas}.

(** Section 4.2: a line holds one JSON object that conforms to the
    schema. *)
Definition accepted (line : string) : option dict :=
  json_loads line ≫= validate_queue_entry.

(** The record a numbered line of the file contributes, if any: empty
    lines contribute none. *)
Definition kept (il : nat * string) : option dict :=
  let line := rstrip is_newline il.2 in
  if is_empty line then None else accepted line.

(** The reason logged for a numbered line that is skipped. *)
Definition skip_reason (il : nat * string) : option log_record :=
  let line := rstrip is_newline il.2 in
  if is_empty line then None
  else
    match json_loads line with
    | None => Some (ERROR, ParseFailed il.1)
    | Some entry =>
        match validate_queue_entry entry with
        | None => Some (ERROR, InvalidEntry il.1)
        | Some _ => None
        end
    end.

(** What [json.dumps] and [json.loads] owe each other on one record: the
    text is one non-empty line and parses back to the record. *)
Definition round_trips (task : dict) : Prop :=
  json_loads (json_dumps (VDict task)) = Some (VDict task)
  ∧ one_line (json_dumps (VDict task)) = true
  ∧ is_empty (json_dumps (VDict task)) = false.

End WithLibraries.

(** No call of [save_queue_atomic] fails under this plan. *)
Definition fault_free (tmp : string) : io_plan := {|
  tmp_name := tmp; create_fails := false; write_fails := None;
  flush_fails := false; fsync_fails := false; close_fails := false;
  remove_fails := false; replace_fails := false |}.

End Store.
Export Store.

(** ** A failing save, as the specification words it *)

Module Atomicity.

(** The calls of [save_queue_atomic], in the order it makes them. *)
Inductive step : Type :=
| CreateTemp
| WriteRecord (k : nat)
| Flush
| Fsync
| CloseTemp
| Replace.

(** The first call that fails under a plan, for [n] records to write. *)
Definition failing_step (io : io_plan) (n : nat) : option step :=
  if create_fails io then Some CreateTemp
  else
    match write_fails io with
    | Some k =>
        if (k <? n)%nat then Some (WriteRecord k)
        else if flush_fails io then Some Flush
        else if fsync_fails io then Some Fsync
        else if close_fails io then Some CloseTemp
        else if replace_fails io then Some Replace
        else None
    | None =>
        if flush_fails io then Some Flush
        else if fsync_fails io then Some Fsync
        else if close_fails io then Some CloseTemp
        else if replace_fails io then Some Replace
        else None
    end.

Definition before_replace (s : step) : bool :=
  match s with Replace => false | _ => true end.

Section WithLibraries.
Context `{JsonLib}.

(** Section 4.2 and section 8: after a failure before the replace, the
    temporary file is gone, the target is as it was, and the error has
    reached the caller. *)
Definition cleans_up (io : io_plan) (files : fs) (path : string)
  (items : list dict) : Prop :=
  ∀ s, failing_step io (length items) = Some s → before_replace s = true →
    let r := save_queue_atomic io files path items in
    r.1 !! tmp_name io = None
    ∧ r.1 !! path = files !! path
    ∧ ∃ e, r.2.2 = Raise e.

End WithLibraries.

(** The third record cannot be written, and the temporary file cannot be
    removed either. *)
Definition disk_trouble : io_plan := {|
  tmp_name := "tmpq0x1f"; create_fails := false; write_fails := Some 2%nat;
  flush_fails := false; fsync_fails := false; close_fails := false;
  remove_fails := true; replace_fails := false |}.

End Atomicity.
Export Atomicity.

(** ** Flags of the block validator *)

Module Flags.

(** The rules a run of the validator flagged, as warnings or as errors. *)
Definition flags (log : list log_record) : list rule :=
  omap (λ rec : log_record,
          match rec.2 with Flagged r => Some r | _ => None end) log.

(** A computation that neither flags nor raises a rule among [bad]. *)
Definition clean {A : Type} (bad : rule → bool) (m : M A) : Prop :=
  Forall (λ r, bad r = false) (flags m.1)
  ∧ match m.2 with
    | Raise (BlockValidationError r) => bad r = false
    | _ => True
    end.

(** Rules 5 and 6 of section 4.1. *)
Definition size_or_hash (r : rule) : bool :=
  match r with SizeTolerance | HashMatch => true | _ => false end.

(** A computation of strict mode: no rule is flagged unless it is raised,
    and then it is the only one. *)
Definition strictly {A : Type} (m : M A) : Prop :=
  match m.2 with
  | Raise (BlockValidationError r) => flags m.1 = [r]
  | _ => flags m.1 = []
  end.

(** A computation of soft mode: no rule is raised. *)
Definition softly {A : Type} (m : M A) : Prop :=
  match m.2 with
  | Raise (BlockValidationError _) => False
  | _ => True
  end.

End Flags.
Export Flags.

(** ** Report files, as the specification words it *)

Module Reports.

(** Section 3: a report that exists is preserved. Every file of [before]
    is in [after] with the text it had. *)
Definition preserved (before after : fs) : Prop :=
  ∀ p text, before !! p = Some text → after !! p = Some text.

Definition result_file (base_dir block_id : string) : string :=
  path_join (path_join (path_join base_dir "Archive") "AnalysisResults")
    (block_id +:+ ".json").

Definition error_file (base_dir block_id : string) : string :=
  path_join (path_join (path_join base_dir "Archive") "AnalysisErrors")
    (block_id +:+ ".json").


(** No call of a writer fails under this plan. *)
Definition no_fault : out_plan :=
  {| mkdir_fails := false; dump_fails := false; unlink_fails := false |}.

End Reports.
Export Reports.

(** ** The order of pending tasks, as the specification words it *)

Module Order.

(** The priority [iter_pending] sorts a task by. *)
Definition priority_of (task : dict) : Z :=
  default 0 (as_int (get_default task "priority" (VInt 0))).

(** Higher priorities first. *)
Definition by_priority (tasks : list dict) : Prop :=
  StronglySorted (λ a b, priority_of b ≤ priority_of a) tasks.

(** Keys that [<] compares without raising, whichever two it is given. *)
Definition comparable (keys : list sort_key) : Prop :=
  ∀ a b, a ∈ keys → b ∈ keys → ∃ lt, key_ltb a b = Ok lt.

(** Keyed elements in the order of the first component of their keys. *)
Definition keys_ascend {A : Type} (keyed : list (sort_key * A)) : Prop :=
  StronglySorted (λ a b : sort_key * A, a.1.1 ≤ b.1.1) keyed.

(** Keyed elements, each tagged with its position in the input, in the
    order of a stable sort: no element is below one before it, and of two
    that [<] does not separate the one from earlier in the input comes
    first. *)
Definition stably_sorted {A : Type} (tagged : list (sort_key * (nat * A))) : Prop :=
  StronglySorted
    (λ a b : sort_key * (nat * A),
       key_ltb b.1 a.1 = Ok false
       ∧ (key_ltb a.1 b.1 = Ok false → (a.2.1 < b.2.1)%nat))
    tagged.

(** The elements of a list with their positions. *)
Definition tag {A : Type} (keyed : list (sort_key * A)) : list (sort_key * (nat * A)) :=
  imap (λ i kt, (kt.1, (i, kt.2))) keyed.

(** Dropping the positions again. *)
Definition untag {A : Type} (kt : sort_key * (nat * A)) : sort_key * A :=
  (kt.1, kt.2.2).

End Order.
Export Order.

(** ** Further notions used to state properties of the sources *)

Module Further.




(** A text file of the given lines, each ended by [ending]. *)
Definition file_of (ending : string) (lines : list string) : string :=
  concat_lines ((λ l, l +:+ ending) <$> lines).

Definition crlf : string := String CR (String LF EmptyString).

(** Several transitions asked of one task, one after the other. *)
Definition run_all (trs : list transition) (items : list dict) (task_id : string)
  : M (list dict) :=
  for_each (λ items tr, run tr items task_id) trs items.

(** The list a transition leaves, as a function of the list it is given. *)
Definition after (tr : transition) (task_id : string) (items : list dict)
  : list dict :=
  match (run tr items task_id).2 with Ok items' => items' | Raise _ => items end.

(** A strict run against the soft run of the same computation: when the
    soft run flags no rule the two are the same run; otherwise the strict
    run flags the first rule of the soft run, and no other, and raises
    it. *)
Definition stops_first {A : Type} (strict soft : M A) : Prop :=
  match flags soft.1 with
  | [] => strict = soft
  | r :: _ => flags strict.1 = [r] ∧ strict.2 = Raise (BlockValidationError r)
  end.

(** The sizes that lines 140-147 of [validate_block] let pass: a recorded
    size of zero with no byte computed, or a difference that is not above
    the product [recorded_size * 0.08]. *)
Definition within_tolerance (computed_size recorded_size : Z) : Prop :=
  if recorded_size =? 0 then computed_size = 0
  else ∃ allow_diff,
         int_mul_float recorded_size c_0_08 = ([], Ok allow_diff)
         ∧ int_gt_float (Z.abs (computed_size - recorded_size)) allow_diff = false.

(** A computation that returns and logs nothing above a warning. *)
Definition is_warning (rec : log_record) : bool :=
  match rec.1 with WARNING => true | _ => false end.

Definition warns {A : Type} (m : M A) : Prop :=
  raised m = false ∧ Forall (λ rec, is_warning rec = true) m.1.



End Further.
Export Further.

(** ** Sample data *)

Module Sample.

Definition task (id status : string) (priority : Z) (created_at : string) : dict :=
  <["id" := VStr id]>
  (<["status" := VStr status]>
  (<["priority" := VInt priority]>
  (<["created_at" := VStr created_at]> ∅))).

(** Scenario 3 of the specification. *)
Definition t1 : dict := <["id" := VStr "t1"]>
  (<["status" := VStr "pending"]> (<["priority" := VInt 5]> ∅)).

(** Two pending tasks of one priority: the first was created at a time
    that parses, the second carries a text that does not. *)
Definition dated : dict := task "a" "pending" 1 "2024-01-01T00:00:00".
Definition undated : dict := task "b" "pending" 1 "not-a-date".

(** Two pending tasks of one priority whose times both parse, one with a
    UTC offset and one without. *)
Definition aware : dict := task "c" "pending" 1 "2024-01-01T00:00:00Z".

(** Scenario 1 of the specification: the block with text [hi]. *)
Definition block (status : string) (size_bytes : Z) : dict :=
  <["block_id" := VStr "b1"]>
  (<["seq" := VInt 1]>
  (<["total_seqs" := VInt 1]>
  (<["text" := VStr "hi"]>
  (<["encoding" := VStr "utf-8"]>
  (<["size_bytes" := VInt size_bytes]>
  (<["hash_sha256" :=
       VStr "8f434346648f6b96df89dda901c5176b10a6d83961dd3c1ac88b59b2dc327aa4"]>
  (<["status" := VStr status]> ∅))))))).

(** Three failures of the analysis of one block, reported with one
    timestamp, starting from an empty archive (scenario 5 of the
    specification has two). *)
Definition report_error (files : fs) (error_detail : string) : fs :=
  (@write_error Ref.json Ref.schemas no_fault files "/data" "b1" "t1" "Network"
     error_detail None "2024-01-01T00:00:00Z").1.

Definition one_report : fs := report_error ∅ "timeout".

(** An archive with the result of block [b1] and one error report for it. *)
Definition archive : fs :=
  (@write_result Ref.json Ref.schemas no_fault one_report "/data" "b1" "model-x"
     "1.0" (<["summary" := VStr "fine"]> ∅) "2024-01-01T00:05:00Z").1.

(** The queue file of three tasks, as a fault-free save writes it. *)
Definition queue : list dict := [t1; dated; undated].

Definition disk : fs :=
  (@save_queue_atomic Ref.json (fault_free "tmpq0x1e") ∅ "queue.jsonl" queue).1.

(** Scenario 4 of the specification: a line that is no JSON between two
    valid lines. *)
Definition damaged_queue : string :=
  Ref.dumps (VDict t1) +:+ newline +:+ "{oops" +:+ newline
  +:+ Ref.dumps (VDict dated) +:+ newline.

(** A pending task whose [priority] is a text, and a task that is done. *)
Definition unranked : dict :=
  <["id" := VStr "u"]>
  (<["status" := VStr "pending"]> (<["priority" := VStr "high"]> ∅)).

Definition finished : dict := task "f" "done" 1 "2024-01-01T00:00:00".

(** The lines of a file of two records, without their line ends. *)
Definition two_lines : list string :=
  [Ref.dumps (VDict t1); Ref.dumps (VDict dated)].

End Sample.

(** * Properties *)

(** ** The monad *)

Lemma bind_ok {A B : Type} (l : list log_record) (a : A) (k : A → M B) :
  ((l, Ok a) : M A) ≫= k = (l ++ (k a).1, (k a).2).
Proof. unfold mbind, M_bind. by destruct (k a). Qed.

Lemma bind_raise {A B : Type} (l : list log_record) (e : exn) (k : A → M B) :
  ((l, Raise e) : M A) ≫= k = (l, Raise e).
Proof. reflexivity. Qed.

Lemma bind_ret {A B : Type} (a : A) (k : A → M B) : mret a ≫= k = k a.
Proof. unfold mret, M_ret. rewrite bind_ok. by destruct (k a). Qed.

Lemma bind_emit {B : Type} (lv : level) (ev : event) (k : unit → M B) :
  emit lv ev ≫= k = ((lv, ev) :: (k tt).1, (k tt).2).
Proof. unfold emit. by rewrite bind_ok. Qed.

(** ** The task lifecycle *)

Section LifecycleProps.

Lemma find_task_Some items task_id i task :
  find_task items task_id = Some (i, task) →
  items !! i = Some task ∧ eq_str (get task "id") task_id = true.
Proof.
  unfold find_task. intros Hf. apply list_find_Some in Hf as (Hi & Hid & _).
  split; [done|]. by apply Is_true_true.
Qed.

Lemma find_task_None items task_id :
  find_task items task_id = None →
  Forall (λ t, eq_str (get t "id") task_id = false) items.
Proof.
  unfold find_task. intros Hf. rewrite list_find_None in Hf.
  eapply Forall_impl; [exact Hf|]. intros t Ht. simpl in Ht.
  by destruct (eq_str (get t "id") task_id).
Qed.

(** What each call computes, by the status of the task it finds. *)
Lemma run_found tr items task_id i task :
  find_task items task_id = Some (i, task) →
  ∃ log, reported log = Some (table tr (get task "status")) ∧
    run tr items task_id =
      (log, Ok (match table tr (get task "status") with
                | Mutated => <[i := updated tr task]> items
                | _ => items
                end)).
Proof.
  intros Hf. destruct tr; simpl;
    unfold mark_in_progress, mark_done, mark_error; rewrite Hf; simpl;
    repeat match goal with
           | |- context [if ?b then _ else _] => destruct b eqn:?; simpl
           end;
    eexists; (split; [|reflexivity]); reflexivity.
Qed.

Lemma run_missing tr items task_id :
  find_task items task_id = None →
  ∃ log, reported log = Some Missing ∧ run tr items task_id = (log, Ok items).
Proof.
  intros Hf. destruct tr; simpl;
    unfold mark_in_progress, mark_done, mark_error; rewrite Hf;
    eexists; (split; [|reflexivity]); reflexivity.
Qed.

End LifecycleProps.

Lemma get_insert_eq (task : dict) k v : get (<[k := v]> task) k = v.
Proof. unfold get. by rewrite lookup_insert_eq. Qed.

Lemma get_insert_ne (task : dict) k k' v :
  k ≠ k' → get (<[k := v]> task) k' = get task k'.
Proof. intros Hne. unfold get. by rewrite lookup_insert_ne. Qed.

(** Every field of the record a transition writes. *)
Ltac get_updated :=
  unfold updated;
  repeat first [ rewrite get_insert_eq | rewrite get_insert_ne by done ].

Lemma updated_well_formed tr task :
  well_formed task → table tr (get task "status") = Mutated →
  well_formed (updated tr task).
Proof.
  intros [Hrec Hinv] Hmut.
  unfold well_formed, is_task_record, paths_invariant, has_status, non_null in *.
  destruct tr; simpl in Hmut; get_updated; [|done|done].
  destruct (eq_str (get task "status") "in_progress"); [done|].
  destruct (eq_str (get task "status") "done"); [done|].
  destruct (eq_str (get task "status") "error"); [done|].
  destruct (eq_str (get task "status") "pending"); [|done].
  split; [done|]. exact Hinv.
Qed.

(** C4: [mark_in_progress], [mark_done] and [mark_error] return for every
    task list and task id, without raising; what they report is what the
    transition table gives for the status of the task found: a no-op or a
    rejection, both leaving the list as it was, or a mutation of that one
    task; an id that no task has is reported as not found and the list is
    left as it was. *)
Theorem lifecycle_total (tr : transition) (items : list dict) (task_id : string) :
  ∃ log items',
    run tr items task_id = (log, Ok items') ∧
    match find_task items task_id with
    | None => reported log = Some Missing ∧ items' = items
    | Some (i, task) =>
        match table tr (get task "status") with
        | Missing => False
        | NoOp => reported log = Some NoOp ∧ items' = items
        | Rejected => reported log = Some Rejected ∧ items' = items
        | Mutated =>
            reported log = Some Mutated ∧ items' = <[i := updated tr task]> items
        end
    end.
Proof.
  destruct (find_task items task_id) as [[i task]|] eqn:Hf.
  - destruct (run_found tr items task_id i task Hf) as (log & Hrep & Hrun).
    exists log. eexists. split; [exact Hrun|].
    destruct (table tr (get task "status")) eqn:Ht; try done.
    destruct tr; simpl in Ht;
      repeat match type of Ht with
             | (if ?b then _ else _) = _ => destruct b
             end; discriminate.
  - destruct (run_missing tr items task_id Hf) as (log & Hrep & Hrun).
    by exists log, items.
Qed.

(** C5: a list of TaskRecords that each satisfy the invariant on
    [result_path] and [error_path] is, after any of the three transitions,
    again such a list; a task that [mark_done] accepts gets the result path
    and null error fields, one that [mark_error] accepts gets the error
    fields and a null result path. *)
Theorem transitions_preserve_invariant
  (tr : transition) (items : list dict) (task_id : string) :
  Forall well_formed items →
  ∃ log items',
    run tr items task_id = (log, Ok items') ∧
    Forall well_formed items' ∧
    ∀ i task,
      find_task items task_id = Some (i, task) →
      table tr (get task "status") = Mutated →
      ∃ task', items' !! i = Some task' ∧
        match tr with
        | Start => True
        | Complete result_path _ =>
            get task' "result_path" = VStr result_path
            ∧ get task' "error_path" = VNone ∧ get task' "error_msg" = VNone
        | Fail error_msg error_path _ =>
            get task' "error_path" = VStr error_path
            ∧ get task' "error_msg" = VStr error_msg
            ∧ get task' "result_path" = VNone
        end.
Proof.
  intros Hwf.
  destruct (find_task items task_id) as [[i task]|] eqn:Hf.
  - destruct (run_found tr items task_id i task Hf) as (log & _ & Hrun).
    apply find_task_Some in Hf as [Hi _].
    exists log. eexists. split; [exact Hrun|].
    destruct (table tr (get task "status")) eqn:Ht;
      try (split; [exact Hwf | intros ? ? ? ?; congruence]).
    split.
    + apply Forall_insert; [exact Hwf|].
      apply updated_well_formed; [|exact Ht].
      by eapply Forall_lookup_1 in Hwf.
    + intros i' task' [= <- <-] _. exists (updated tr task).
      split; [apply list_lookup_insert_eq; by eapply lookup_lt_Some|].
      destruct tr; [done| |]; get_updated; done.
  - destruct (run_missing tr items task_id Hf) as (log & _ & Hrun).
    exists log, items. split; [exact Hrun|]. split; [exact Hwf|]. intros; congruence.
Qed.

(** C10: a task whose status is [pending] is marked [done] by [mark_done]
    and [error] by [mark_error] directly: the call is accepted and reported
    as a mutation, with no [in_progress] in between. *)
Theorem pending_to_terminal_accepted
  (items : list dict) (task_id : string) (i : nat) (task : dict)
  (result_path error_msg error_path completed_at : string) :
  find_task items task_id = Some (i, task) →
  is_pending task = true →
  mark_done items task_id result_path completed_at
    = ([(INFO, Marked task_id "done")],
       Ok (<[i := updated (Complete result_path completed_at) task]> items))
  ∧ get (updated (Complete result_path completed_at) task) "status" = VStr "done"
  ∧ mark_error items task_id error_msg error_path completed_at
    = ([(INFO, Marked task_id "error")],
       Ok (<[i := updated (Fail error_msg error_path completed_at) task]> items))
  ∧ get (updated (Fail error_msg error_path completed_at) task) "status"
    = VStr "error".
Proof.
  intros Hf Hp. unfold is_pending in Hp.
  destruct (get task "status") as [| | |s| |] eqn:Hs; try discriminate.
  simpl in Hp. apply bool_decide_eq_true in Hp. subst s.
  unfold mark_done, mark_error. rewrite Hf, Hs. simpl.
  repeat split; by get_updated.
Qed.

Lemma pending_to_terminal_accepted_witness :
  find_task [Sample.t1] "t1" = Some (0%nat, Sample.t1)
  ∧ is_pending Sample.t1 = true
  ∧ mark_done [Sample.t1] "t1" "r.json" "2024-01-02T00:00:00Z"
    = ([(INFO, Marked "t1" "done")],
       Ok (<[0%nat := updated (Complete "r.json" "2024-01-02T00:00:00Z") Sample.t1]>
             [Sample.t1])).
Proof.
  split; [reflexivity|]. split; [reflexivity|].
  apply (pending_to_terminal_accepted [Sample.t1] "t1" 0 Sample.t1
           "r.json" "boom" "e.json" "2024-01-02T00:00:00Z");
    reflexivity.
Defined.

Lemma transitions_preserve_invariant_witness :
  Forall well_formed [Sample.t1; Sample.dated]
  ∧ ∃ log items',
      run (Fail "boom" "e.json" "2024-01-02T00:00:00Z")
        [Sample.t1; Sample.dated] "t1" = (log, Ok items')
      ∧ Forall well_formed items'.
Proof.
  assert (Hwf : Forall well_formed [Sample.t1; Sample.dated])
    by (repeat constructor).
  split; [exact Hwf|].
  destruct (transitions_preserve_invariant
              (Fail "boom" "e.json" "2024-01-02T00:00:00Z")
              [Sample.t1; Sample.dated] "t1" Hwf) as (log & items' & Hrun & Hwf' & _).
  by exists log, items'.
Defined.

(** ** Loading the queue *)

Section LoadProps.
Context `{JsonLib} `{Schemas}.

Lemma omap_cons {A B : Type} (f : A → option B) (x : A) (l : list A) :
  omap f (x :: l)
  = match f x with Some y => y :: omap f l | None => omap f l end.
Proof. reflexivity. Qed.

Lemma load_line_spec (il : nat * string) (items : list dict) (n : nat) :
  load_line (items, n) il
  = (option_list (skip_reason il),
     Ok (items ++ option_list (kept il),
         (n + length (option_list (kept il))
          + length (option_list (skip_reason il)))%nat)).
Proof.
  destruct il as [idx line].
  unfold load_line, kept, skip_reason, accepted. cbn [fst snd].
  destruct (is_empty (rstrip is_newline line)).
  { cbn. unfold mret, M_ret. by rewrite app_nil_r, !Nat.add_0_r. }
  destruct (json_loads (rstrip is_newline line)) as [entry|]; cbn.
  2:{ rewrite app_nil_r. do 3 f_equal. lia. }
  destruct (validate_queue_entry entry) as [d|]; cbn.
  - unfold mret, M_ret. do 3 f_equal. lia.
  - rewrite app_nil_r. do 3 f_equal. lia.
Qed.

Lemma omap_cons_app {A B : Type} (f : A → option B) (x : A) (l : list A) :
  omap f (x :: l) = option_list (f x) ++ omap f l.
Proof. rewrite omap_cons. by destruct (f x). Qed.

Lemma load_lines_spec (ls : list (nat * string)) (items : list dict) (n : nat) :
  for_each load_line ls (items, n)
  = (omap skip_reason ls,
     Ok (items ++ omap kept ls,
         (n + length (omap kept ls) + length (omap skip_reason ls))%nat)).
Proof.
  revert items n. induction ls as [|il ls IH]; intros items n.
  - simpl. unfold mret, M_ret. by rewrite app_nil_r, !Nat.add_0_r.
  - change (for_each load_line (il :: ls) (items, n))
      with (load_line (items, n) il ≫= for_each load_line ls).
    rewrite load_line_spec, bind_ok, IH, !omap_cons_app. cbn [fst snd].
    rewrite !length_app, <- app_assoc. do 3 f_equal. lia.
Qed.

Lemma omap_kept_enumerate (start : nat) (lines : list string) :
  omap kept (enumerate start lines)
  = omap accepted
      (filter (λ l, is_empty l = false) (rstrip is_newline <$> lines)).
Proof.
  unfold enumerate. revert start. induction lines as [|l lines IH]; intros start; [done|].
  assert (Hrest : imap ((λ i x, ((start + i)%nat, x)) ∘ S) lines
                  = imap (λ i x, ((S start + i)%nat, x)) lines).
  { apply imap_ext. intros i x _. simpl. f_equal. lia. }
  rewrite fmap_cons, filter_cons.
  change (imap (λ i x, ((start + i)%nat, x)) (l :: lines))
    with (((start + 0)%nat, l)
            :: imap ((λ i x, ((start + i)%nat, x)) ∘ S) lines).
  rewrite omap_cons, Hrest, IH. unfold kept at 1. cbn [snd].
  destruct (is_empty (rstrip is_newline l)) eqn:He.
  - rewrite decide_False by done. reflexivity.
  - rewrite decide_True by done. by rewrite omap_cons.
Qed.

(** The records and the log of a load, line by line. *)
Lemma load_queue_lines (files : fs) (path : string) (content : string) :
  load_queue (<[path := content]> files) path
  = (omap skip_reason (enumerate 1 (text_lines content))
       ++ [(INFO, Loaded (length (omap kept (enumerate 1 (text_lines content))))
                    (length (omap skip_reason (enumerate 1 (text_lines content)))))],
     Ok (omap kept (enumerate 1 (text_lines content)))).
Proof.
  unfold load_queue.
  rewrite lookup_insert_eq, load_lines_spec, bind_ok. cbn [fst snd app].
  rewrite bind_emit. cbn [fst snd mret M_ret]. do 5 f_equal. lia.
Qed.


End LoadProps.

(** ** Text lines *)

Lemma app_cons (c : ascii) (s t : string) : String c s +:+ t = String c (s +:+ t).
Proof. reflexivity. Qed.

Lemma app_empty_l (s : string) : EmptyString +:+ s = s.
Proof. reflexivity. Qed.

Lemma app_assoc_str (s t u : string) : (s +:+ t) +:+ u = s +:+ (t +:+ u).
Proof. induction s as [|c s IH]; [done|]. by rewrite !app_cons, IH. Qed.

Lemma one_line_cons (c : ascii) (s : string) :
  one_line (String c s) = true →
  bool_decide (c = LF) = false ∧ bool_decide (c = CR) = false ∧ one_line s = true.
Proof.
  cbn [one_line]. unfold is_newline. intros Hc.
  apply andb_prop in Hc as [Hc Hs]. apply negb_true_iff, orb_false_elim in Hc.
  tauto.
Qed.

Lemma text_lines_from_line (l cur rest : string) :
  one_line l = true →
  text_lines_from cur (l +:+ newline +:+ rest)
  = (cur +:+ l +:+ newline) :: text_lines_from EmptyString rest.
Proof.
  revert cur. induction l as [|c l IH]; intros cur Hl.
  - rewrite !app_empty_l. unfold newline. rewrite app_cons, app_empty_l.
    cbn [text_lines_from]. by rewrite bool_decide_true.
  - apply one_line_cons in Hl as (Hlf & Hcr & Hl).
    rewrite app_cons. cbn [text_lines_from]. rewrite Hlf, Hcr, IH by done.
    by rewrite app_assoc_str, app_cons, app_empty_l.
Qed.

Lemma text_lines_concat (ls : list string) :
  Forall (λ l, one_line l = true) ls →
  text_lines (concat_lines ((λ l, l +:+ newline) <$> ls))
  = (λ l, l +:+ newline) <$> ls.
Proof.
  unfold text_lines. induction 1 as [|l ls Hl _ IH]; [done|].
  rewrite fmap_cons. cbn [concat_lines foldr]. fold (concat_lines ((λ l, l +:+ newline) <$> ls)).
  rewrite app_assoc_str, text_lines_from_line by done.
  by rewrite IH, app_empty_l.
Qed.

Lemma rstrip_line (l : string) :
  one_line l = true → rstrip is_newline (l +:+ newline) = l.
Proof.
  induction l as [|c l IH]; intros Hl; [done|].
  apply one_line_cons in Hl as (Hlf & Hcr & Hl).
  rewrite app_cons. cbn [rstrip]. rewrite IH by done.
  unfold is_newline. by rewrite Hlf, Hcr, andb_false_r.
Qed.

(** ** Saving the queue, and loading what was saved *)

Section SaveProps.
Context `{JsonLib} `{Schemas}.

(** A save that returns has written every record and renamed the file. *)
Lemma save_returns (io : io_plan) (files : fs) (path : string) (items : list dict) :
  (save_queue_atomic io files path items).2.2 = Ok tt →
  (save_queue_atomic io files path items).1 !! path
  = Some (concat_lines ((λ task, json_dumps (VDict task) +:+ newline) <$> items)).
Proof.
  unfold save_queue_atomic, write_records.
  destruct (create_fails io); [done|].
  destruct (write_fails io) as [k|].
  - destruct (k <? _)%nat; cbn [orb]; [done|].
    destruct (flush_fails io), (fsync_fails io), (close_fails io),
      (replace_fails io); cbn; try done.
    intros _. apply lookup_insert_eq.
  - destruct (flush_fails io), (fsync_fails io), (close_fails io),
      (replace_fails io); cbn; try done.
    intros _. apply lookup_insert_eq.
Qed.

Lemma accepted_dumps (items : list dict) :
  Forall (λ t, queue_schema t = true ∧ round_trips t) items →
  omap accepted
    (filter (λ l, is_empty l = false)
       (rstrip is_newline
          <$> ((λ l, l +:+ newline) <$> ((λ t, json_dumps (VDict t)) <$> items))))
  = items.
Proof.
  induction 1 as [|t items [Hs (Hrt & Hone & Hne)] _ IH]; [done|].
  rewrite !fmap_cons, rstrip_line, filter_cons, decide_True, omap_cons by done.
  unfold accepted at 1. rewrite Hrt. cbn. rewrite Hs. by rewrite IH.
Qed.

(** C2: when every record of a list conforms to the queue schema and
    [json.loads] reads back what [json.dumps] wrote for it, on one line,
    then a [save_queue_atomic] that returns followed by a [load_queue] of
    the same path returns the records saved, in their order: the same
    list, and so the same [id], [status], [priority], [created_at],
    [result_path], [error_path], [error_msg] and [completed_at]; what the
    file held before does not matter. *)
Theorem save_then_load
  (io : io_plan) (files : fs) (path : string) (items : list dict) :
  Forall (λ t, queue_schema t = true ∧ round_trips t) items →
  (save_queue_atomic io files path items).2.2 = Ok tt →
  ∃ log loaded,
    load_queue (save_queue_atomic io files path items).1 path = (log, Ok loaded)
    ∧ loaded = items
    ∧ fields <$> loaded = fields <$> items.
Proof.
  intros Hitems Hsaved. apply save_returns in Hsaved.
  rewrite <- (insert_id _ _ _ Hsaved), load_queue_lines, omap_kept_enumerate.
  eexists. exists items. split; [|done].
  assert (Hlines : (λ task, json_dumps (VDict task) +:+ newline) <$> items
                   = (λ l, l +:+ newline) <$> ((λ t, json_dumps (VDict t)) <$> items))
    by (by rewrite <- list_fmap_compose).
  rewrite Hlines, text_lines_concat.
  - by rewrite accepted_dumps.
  - apply Forall_fmap. eapply Forall_impl; [exact Hitems|].
    by intros t (_ & _ & Hone & _).
Qed.

End SaveProps.

Section SaveFailureProps.
Context `{JsonLib}.

Lemma save_outcome (io : io_plan) (files : fs) (path : string) (items : list dict) :
  let r := save_queue_atomic io files path items in
  match failing_step io (length items) with
  | None => r.2.2 = Ok tt
  | Some CreateTemp => r.1 = files ∧ r.2.2 = Raise OSError
  | Some CloseTemp =>
      (∃ written, r.1 = <[tmp_name io := written]> files) ∧ r.2.2 = Raise OSError
  | Some _ =>
      (∃ written,
         r.1 = remove_quietly io (tmp_name io) (<[tmp_name io := written]> files))
      ∧ r.2.2 = Raise OSError
  end.
Proof.
  unfold save_queue_atomic, failing_step, write_records.
  rewrite length_fmap.
  destruct (create_fails io); [done|].
  destruct (write_fails io) as [k|]; [destruct (k <? length items)%nat|];
    cbn [orb]; [by eauto| |];
    destruct (flush_fails io), (fsync_fails io), (close_fails io),
      (replace_fails io); cbn; eauto.
Qed.

(** C3, as the code has it: a [save_queue_atomic] in which a call fails
    raises; whatever the call, every file but the temporary one, the
    target among them, is left as it was; and when the call was not the
    closing of the temporary file and the file can be removed, it is
    removed, which leaves the file system as it was before the call. *)
Theorem save_failure_keeps_queue
  (io : io_plan) (files : fs) (path : string) (items : list dict) (s : step) :
  files !! tmp_name io = None →
  tmp_name io ≠ path →
  failing_step io (length items) = Some s →
  let r := save_queue_atomic io files path items in
  r.2.2 = Raise OSError
  ∧ r.1 !! path = files !! path
  ∧ (∀ p, p ≠ tmp_name io → r.1 !! p = files !! p)
  ∧ (s ≠ CloseTemp → remove_fails io = false → r.1 = files).
Proof.
  intros Hfresh Hne Hs r.
  pose proof (save_outcome io files path items) as Hout.
  cbn zeta in Hout. fold r in Hout. rewrite Hs in Hout.
  assert (Hkeep : ∀ written p, p ≠ tmp_name io →
            remove_quietly io (tmp_name io) (<[tmp_name io := written]> files) !! p
            = files !! p).
  { intros written p Hp. unfold remove_quietly. destruct (remove_fails io).
    - by rewrite lookup_insert_ne.
    - by rewrite lookup_delete_ne, lookup_insert_ne. }
  assert (Hgone : ∀ written, remove_fails io = false →
            remove_quietly io (tmp_name io) (<[tmp_name io := written]> files) = files).
  { intros written Hrm. unfold remove_quietly. rewrite Hrm.
    by rewrite delete_insert_eq, delete_id. }
  clearbody r.
  assert (Hremoved : ∀ written,
            r.1 = remove_quietly io (tmp_name io) (<[tmp_name io := written]> files) →
            r.1 !! path = files !! path
            ∧ (∀ p, p ≠ tmp_name io → r.1 !! p = files !! p)
            ∧ (s ≠ CloseTemp → remove_fails io = false → r.1 = files)).
  { intros written ->. split; [by apply Hkeep|].
    split; [intros p Hp; by apply Hkeep|]. intros _. apply Hgone. }
  destruct s; destruct Hout as [Hfs Hr]; (split; [exact Hr|]).
  - rewrite Hfs. done.
  - destruct Hfs as [written Hfs]. by apply (Hremoved written).
  - destruct Hfs as [written Hfs]. by apply (Hremoved written).
  - destruct Hfs as [written Hfs]. by apply (Hremoved written).
  - destruct Hfs as [written ->]. split; [by rewrite lookup_insert_ne|].
    split; [intros p Hp; by rewrite lookup_insert_ne|]. done.
  - destruct Hfs as [written Hfs]. by apply (Hremoved written).
Qed.

End SaveFailureProps.

(** ** The block validator *)

Section FloatProps.

(** The sign of a rounded value is the sign that was asked for. *)
Lemma binary_round_aux_sign (sx : bool) (mx ex : Z) (lx : location) :
  match binary_round_aux prec emax sx mx ex lx with
  | S754_zero s | S754_infinity s | S754_finite s _ _ => s = sx
  | S754_nan => True
  end.
Proof.
  unfold binary_round_aux.
  destruct (shr_fexp prec emax mx ex lx) as [mrs e].
  destruct (shr_fexp prec emax _ e loc_Exact) as [mrs' e'].
  destruct (shr_m mrs'); [done| |done].
  by destruct (e' <=? emax - prec).
Qed.

Lemma int_gt_float_nonneg (f : spec_float) :
  match f with
  | S754_zero _ | S754_nan => True
  | S754_infinity s | S754_finite s _ _ => s = false
  end →
  int_gt_float 0 f = false.
Proof.
  destruct f as [s|s| |s m e]; cbn; intros Hs; subst; try done.
  destruct (0 <=? e) eqn:He.
  - apply Z.ltb_ge. apply Z.leb_le in He.
    apply Z.mul_nonneg_nonneg; [lia|]. by apply Z.pow_nonneg.
  - done.
Qed.

(** A positive [int] times [0.08] is not below zero. *)
Lemma int_mul_float_positive (z : Z) :
  0 < z →
  int_mul_float z c_0_08 = ([], Raise OverflowError)
  ∨ ∃ f, int_mul_float z c_0_08 = ([], Ok f) ∧ int_gt_float 0 f = false.
Proof.
  intros Hz. unfold int_mul_float, float_of_int.
  destruct z as [|p|p]; try lia. cbn [binary_normalize].
  unfold binary_round.
  destruct (shl_align p 0 _) as [mz ez].
  pose proof (binary_round_aux_sign false (Z.pos mz) ez loc_Exact) as Hsign.
  destruct (binary_round_aux prec emax false (Z.pos mz) ez loc_Exact)
    as [s|s| |s m e]; [right|by left|right|right]; eexists; (split; [reflexivity|]).
  - done.
  - done.
  - subst s. unfold c_0_08. cbn [SFmul xorb].
    apply int_gt_float_nonneg.
    pose proof (binary_round_aux_sign false (Z.pos (m * 5764607523034235))
                  (e + -56) loc_Exact) as Hs.
    by destruct (binary_round_aux prec emax false _ _ loc_Exact).
Qed.

End FloatProps.

Section CleanProps.
Context {bad : rule → bool}.

Lemma clean_ret {A : Type} (a : A) : clean bad (mret a : M A).
Proof. split; [constructor|done]. Qed.

Lemma clean_bind {A B : Type} (m : M A) (k : A → M B) :
  clean bad m → (∀ a, m.2 = Ok a → clean bad (k a)) → clean bad (m ≫= k).
Proof.
  destruct m as [l [a|e]]; intros [Hl Hr] Hk; [|by split].
  rewrite bind_ok. destruct (Hk a eq_refl) as [Hkl Hkr]. split; [|done].
  cbn [fst] in *. unfold flags in *. rewrite omap_app. by apply Forall_app.
Qed.

Lemma clean_flag (strict : bool) (r : rule) : bad r = false → clean bad (flag strict r).
Proof. intros Hr. unfold flag. destruct strict; (split; [by repeat constructor|done]). Qed.

Lemma clean_when (b : bool) (m : M unit) :
  (b = true → clean bad m) → clean bad (when b m).
Proof. destruct b; intros Hm; [by apply Hm|apply clean_ret]. Qed.

Lemma clean_no_flag {A : Type} (m : M A) (r : rule) (lv : level) :
  clean bad m → bad r = true →
  ((lv, Flagged r) ∉ m.1) ∧ m.2 ≠ Raise (BlockValidationError r).
Proof.
  intros [Hl Hr] Hbad. split.
  - intros Hin. rewrite Forall_forall in Hl. specialize (Hl r).
    rewrite Hl in Hbad; [done|]. unfold flags. apply list_elem_of_omap.
    by exists (lv, Flagged r).
  - intros Heq. rewrite Heq in Hr. congruence.
Qed.

End CleanProps.

Section BlockProps.
Context `{Schemas} `{CodecLib}.

Lemma clean_raise {A : Type} (bad : rule → bool) (e : exn) :
  (∀ r, e ≠ BlockValidationError r) → clean bad (raise e : M A).
Proof. intros He. split; [constructor|]. destruct e; try done. by destruct (He r). Qed.

Lemma clean_emit (bad : rule → bool) (lv : level) (ev : event) :
  (∀ r, ev ≠ Flagged r) → clean bad (emit lv ev).
Proof.
  intros Hev. split; [|done]. unfold flags. cbn.
  destruct ev; try (by constructor). by destruct (Hev r).
Qed.

(** The tail of [validate_block], from the sequence check on, flags
    neither rule 5 nor rule 6. *)
Lemma clean_tail (obj : dict) (strict : bool) :
  clean size_or_hash
    (_ ← match as_int (get obj "seq"), as_int (get obj "total_seqs") with
         | Some seq, Some total_seqs =>
             when (negb ((1 <=? seq) && (seq <=? total_seqs)))
               (flag strict SequenceBound)
         | _, _ => mret tt
         end;
     match get obj "status" with
     | VList _ | VDict _ => raise TypeError
     | VStr status =>
         when (bool_decide (status = "damaged") || bool_decide (status = "binary"))
           (emit WARNING (BlockStatus status))
     | _ => mret tt
     end).
Proof.
  apply clean_bind.
  - destruct (as_int (get obj "seq")), (as_int (get obj "total_seqs"));
      try apply clean_ret.
    apply clean_when. intros _. by apply clean_flag.
  - intros _ _. destruct (get obj "status");
      try apply clean_ret; try (by apply clean_raise).
    apply clean_when. intros _. by apply clean_emit.
Qed.

Lemma exact_block_clean (obj : dict) (strict : bool)
  (text encoding : string) (bytes : list Z) :
  get_default obj "text" (VStr "") = VStr text →
  get_default obj "encoding" (VStr "utf-8") = VStr encoding →
  str_encode encoding text = Some bytes →
  get_default obj "size_bytes" (VInt 0) = VInt (Z.of_nat (length bytes)) →
  get_default obj "hash_sha256" (VStr "") = VStr (sha256_hexdigest bytes) →
  clean size_or_hash (validate_block obj strict).
Proof.
  intros Htext Henc Hbytes Hsize Hhash. unfold validate_block.
  destruct (block_schema obj); cbn [negb]; [|by apply clean_raise].
  rewrite Htext, Henc, Hsize, Hhash. cbn [py_len as_int]. rewrite bind_ret.
  apply clean_bind; [apply clean_when; intros _; by apply clean_flag|].
  intros _ _. rewrite Hbytes, bind_ret.
  apply clean_bind; [apply clean_when; intros _; by apply clean_flag|].
  intros _ _. rewrite bind_ret, Z.sub_diag. cbn [Z.abs].
  destruct (Z.eq_dec (Z.of_nat (length bytes)) 0) as [Hz|Hnz].
  - (* an empty text: the product is 0 * 0.08 and the sizes agree *)
    rewrite Hz. cbn [int_mul_float float_of_int binary_normalize].
    rewrite bind_ret. cbn [Z.eqb negb when]. rewrite bind_ret.
    cbn [eq_str]. rewrite bool_decide_true by done. cbn [negb when].
    rewrite bind_ret. apply clean_tail.
  - destruct (int_mul_float_positive (Z.of_nat (length bytes)))
      as [Hov|(f & Hf & Hgt)]; [lia| |].
    + rewrite Hov. by apply clean_raise.
    + rewrite Hf. change (([], Ok f) : M spec_float) with (mret f : M spec_float).
      rewrite bind_ret. apply Z.eqb_neq in Hnz. change (Z.abs 0) with 0.
      rewrite Hnz, Hgt.
      cbn [when]. rewrite bind_ret.
      cbn [eq_str]. rewrite bool_decide_true by done. cbn [negb when].
      rewrite bind_ret. apply clean_tail.
Qed.

(** C7: when the text of a record encodes under its declared encoding,
    the recorded [size_bytes] is the number of bytes of the encoding and
    the recorded [hash_sha256] is their SHA-256, [validate_block] flags
    neither the size tolerance (rule 5) nor the hash (rule 6): it logs
    neither as a warning or as an error and raises neither, in strict
    mode and in soft mode. *)
Theorem exact_size_and_hash_not_flagged (obj : dict) (strict : bool)
  (text encoding : string) (bytes : list Z) (r : rule) (lv : level) :
  get_default obj "text" (VStr "") = VStr text →
  get_default obj "encoding" (VStr "utf-8") = VStr encoding →
  str_encode encoding text = Some bytes →
  get_default obj "size_bytes" (VInt 0) = VInt (Z.of_nat (length bytes)) →
  get_default obj "hash_sha256" (VStr "") = VStr (sha256_hexdigest bytes) →
  r = SizeTolerance ∨ r = HashMatch →
  ((lv, Flagged r) ∉ (validate_block obj strict).1)
  ∧ (validate_block obj strict).2 ≠ Raise (BlockValidationError r).
Proof.
  intros Htext Henc Hbytes Hsize Hhash Hr.
  apply (clean_no_flag (bad := size_or_hash)).
  - by eapply exact_block_clean.
  - by destruct Hr as [-> | ->].
Qed.

End BlockProps.

Section ModeProps.
Context `{Schemas} `{CodecLib}.

Lemma strictly_bind {A B : Type} (m : M A) (k : A → M B) :
  strictly m → (∀ a, strictly (k a)) → strictly (m ≫= k).
Proof.
  destruct m as [l [a|e]]; unfold strictly; cbn [fst snd]; intros Hl Hk; [|done].
  rewrite bind_ok. cbn [fst snd]. specialize (Hk a).
  unfold flags in *. rewrite omap_app, Hl. exact Hk.
Qed.

Lemma softly_bind {A B : Type} (m : M A) (k : A → M B) :
  softly m → (∀ a, softly (k a)) → softly (m ≫= k).
Proof.
  destruct m as [l [a|e]]; unfold softly; cbn [fst snd]; intros Hl Hk; [|done].
  rewrite bind_ok. apply Hk.
Qed.

Lemma strictly_when (b : bool) (m : M unit) : strictly m → strictly (when b m).
Proof. by destruct b. Qed.

Lemma softly_when (b : bool) (m : M unit) : softly m → softly (when b m).
Proof. by destruct b. Qed.

Lemma strictly_flag (r : rule) : strictly (flag true r).
Proof. done. Qed.

Lemma softly_flag (r : rule) : softly (flag false r).
Proof. done. Qed.

Lemma int_mul_float_log (z : Z) (f : spec_float) :
  int_mul_float z f = ([], Raise OverflowError)
  ∨ ∃ x, int_mul_float z f = ([], Ok x).
Proof.
  unfold int_mul_float, float_of_int.
  destruct (binary_normalize prec emax z 0 false); eauto.
Qed.

Lemma strictly_mul (z : Z) (f : spec_float) : strictly (int_mul_float z f).
Proof. by destruct (int_mul_float_log z f) as [-> | [x ->]]. Qed.

Lemma softly_mul (z : Z) (f : spec_float) : softly (int_mul_float z f).
Proof. by destruct (int_mul_float_log z f) as [-> | [x ->]]. Qed.

(** Every step of [validate_block] is of its mode. *)
Ltac mode_steps bind_lemma when_lemma flag_lemma mul_lemma :=
  repeat match goal with
         | |- _ (flag _ _) => apply flag_lemma
         | |- _ (when _ _) => apply when_lemma
         | |- _ (int_mul_float _ _) => apply mul_lemma
         | |- _ (_ ≫= _) => apply bind_lemma; [|intros ?]
         | |- context [match ?x with _ => _ end] => destruct x
         | |- _ => done
         end.

Lemma validate_block_strictly (obj : dict) : strictly (validate_block obj true).
Proof.
  unfold validate_block.
  destruct (block_schema obj); cbn [negb]; [|done].
  mode_steps (@strictly_bind) strictly_when strictly_flag strictly_mul.
Qed.

Lemma validate_block_softly (obj : dict) : softly (validate_block obj false).
Proof.
  unfold validate_block.
  destruct (block_schema obj); cbn [negb]; [|done].
  mode_steps (@softly_bind) softly_when softly_flag softly_mul.
Qed.

End ModeProps.

Section ReadProps.
Context `{JsonLib} `{Schemas} `{CodecLib}.

(** C6: [read_block] validates a record in strict mode exactly when its
    [status] is equal to [ok]: it then runs [validate_block] with [strict]
    true, and whatever rule that run flags is raised; on every other
    status it runs [validate_block] with [strict] false, which raises no
    rule. *)
Theorem read_block_strict_iff_ok
  (files : fs) (path content : string) (data : dict) :
  json_loads content = Some (VDict data) →
  let r := read_block (<[path := content]> files) path in
  if eq_str (get data "status") "ok" then
    r = (_ ← validate_block data true; mret data)
    ∧ ∀ rule, rule ∈ flags r.1 → r.2 = Raise (BlockValidationError rule)
  else
    r = (_ ← validate_block data false; mret data)
    ∧ ∀ rule, r.2 ≠ Raise (BlockValidationError rule).
Proof.
  intros Hload r. subst r. unfold read_block.
  rewrite lookup_insert_eq, Hload.
  destruct (eq_str (get data "status") "ok"); (split; [reflexivity|]).
  - pose proof (validate_block_strictly data) as Hs.
    destruct (validate_block data true) as [l [[]|e]]; unfold strictly in Hs;
      cbn [fst snd] in Hs.
    + rewrite bind_ok. cbn [fst snd mret M_ret]. rewrite app_nil_r, Hs.
      intros rule Hin. by apply elem_of_nil in Hin.
    + rewrite bind_raise. cbn [fst snd]. intros rule Hin.
      destruct e; rewrite Hs in Hin; try by apply elem_of_nil in Hin.
      apply list_elem_of_singleton in Hin. by subst.
  - pose proof (validate_block_softly data) as Hs.
    destruct (validate_block data false) as [l [[]|e]]; unfold softly in Hs;
      cbn [fst snd] in Hs.
    + rewrite bind_ok. done.
    + rewrite bind_raise. cbn [snd]. intros rule [= ->]. done.
Qed.

End ReadProps.

(** ** The report writers *)

Section WriterProps.
Context `{JsonLib} `{Schemas}.



End WriterProps.

(** ** Pending tasks *)

Section StringOrder.

Lemma nat_of_ascii_inj (x y : ascii) : nat_of_ascii x = nat_of_ascii y → x = y.
Proof.
  intros Hxy. rewrite <- (ascii_nat_embedding x), <- (ascii_nat_embedding y).
  by rewrite Hxy.
Qed.

Lemma str_ltb_irrefl (a : string) : str_ltb a a = false.
Proof.
  induction a as [|x a IH]; [done|]. cbn [str_ltb].
  by rewrite Nat.ltb_irrefl, Nat.eqb_refl, IH.
Qed.

Lemma str_ltb_trans (a b c : string) :
  str_ltb a b = true → str_ltb b c = true → str_ltb a c = true.
Proof.
  revert b c. induction a as [|x a IH]; intros [|y b] [|z c]; cbn [str_ltb];
    try done.
  intros Hab Hbc.
  apply orb_true_iff in Hab as [Hab|Hab]; apply orb_true_iff in Hbc as [Hbc|Hbc];
    try apply andb_true_iff in Hab as [Hxy Hab];
    try apply andb_true_iff in Hbc as [Hyz Hbc];
    try apply Nat.ltb_lt in Hab; try apply Nat.ltb_lt in Hbc;
    try apply Nat.eqb_eq in Hxy; try apply Nat.eqb_eq in Hyz;
    apply orb_true_iff.
  - left. apply Nat.ltb_lt. lia.
  - left. apply Nat.ltb_lt. lia.
  - left. apply Nat.ltb_lt. lia.
  - right. apply andb_true_iff. split; [apply Nat.eqb_eq; lia|by eapply IH].
Qed.

Lemma str_ltb_total (a b : string) :
  str_ltb a b = false → str_ltb b a = false → a = b.
Proof.
  revert b. induction a as [|x a IH]; intros [|y b]; cbn [str_ltb]; try done.
  intros Hab Hba.
  apply orb_false_iff in Hab as [Hxy Hab]. apply orb_false_iff in Hba as [Hyx Hba].
  apply Nat.ltb_ge in Hxy, Hyx.
  assert (Heq : nat_of_ascii x = nat_of_ascii y) by lia.
  rewrite Heq, Nat.eqb_refl in Hab, Hba. cbn [andb] in Hab, Hba.
  by rewrite (nat_of_ascii_inj _ _ Heq), (IH b).
Qed.

Lemma str_ltb_asym (a b : string) : str_ltb a b = true → str_ltb b a = false.
Proof.
  intros Hab. destruct (str_ltb b a) eqn:Hba; [|done].
  by rewrite <- (str_ltb_irrefl a), <- (str_ltb_trans a b a Hab Hba).
Qed.

End StringOrder.

Section KeyOrder.

Lemma str_geb_trans (a b c : string) :
  str_ltb a b = false → str_ltb b c = false → str_ltb a c = false.
Proof.
  intros Hab Hbc. destruct (str_ltb a c) eqn:Hac; [|done].
  destruct (str_ltb b a) eqn:Hba.
  - by rewrite (str_ltb_trans b a c Hba Hac) in Hbc.
  - rewrite (str_ltb_total a b Hab Hba) in Hac. congruence.
Qed.

(** Case analysis on the comparisons of integers and on the offsets in a
    goal about stamps. *)
Ltac stamp_cases :=
  repeat match goal with
         | d : datetime |- _ => destruct d as [? [?|]]
         end;
  cbn;
  repeat match goal with
         | |- context [?x =? ?y] => destruct (Z.eqb_spec x y)
         | H : context [?x =? ?y] |- _ => destruct (Z.eqb_spec x y)
         | |- context [?x <? ?y] => destruct (Z.ltb_spec x y)
         | H : context [?x <? ?y] |- _ => destruct (Z.ltb_spec x y)
         end;
  try done; try lia.

Lemma stamp_ltb_asym (a b : stamp) :
  stamp_ltb a b = Ok true → stamp_ltb b a = Ok false.
Proof.
  destruct a as [|d|s], b as [|e|t]; cbn; try done.
  - stamp_cases.
  - intros [= Hst]. by rewrite (str_ltb_asym _ _ Hst).
Qed.

Lemma stamp_ltb_trans (a b c : stamp) :
  stamp_ltb a b = Ok true → stamp_ltb b c = Ok true →
  stamp_ltb a c = Ok true ∧ stamp_eqb a c = false.
Proof.
  destruct a as [|d|s], b as [|e|t], c as [|f|u]; cbn; try done.
  - stamp_cases.
  - intros [= Hst] [= Htu]. rewrite (str_ltb_trans _ _ _ Hst Htu).
    split; [done|]. apply bool_decide_eq_false. intros ->.
    by rewrite (str_ltb_asym _ _ Hst) in Htu.
Qed.

Lemma stamp_geb_trans (a b c : stamp) (lt : bool) :
  stamp_eqb a b = true ∨ stamp_ltb a b = Ok false →
  stamp_eqb b c = true ∨ stamp_ltb b c = Ok false →
  stamp_eqb a c = false → stamp_ltb a c = Ok lt → lt = false.
Proof.
  destruct a as [|d|s], b as [|e|t], c as [|f|u]; cbn;
    try (by intros [|] [|]).
  - destruct d as [wd [od|]], e as [we [oe|]], f as [wf [oz|]]; cbn;
      intros [Hde|Hde] [Hef|Hef] Hdf Hlt; try done;
      injection Hlt as <-;
      repeat match goal with
             | H : Ok _ = Ok _ |- _ => injection H as H
             | H : (_ =? _) = true |- _ => apply Z.eqb_eq in H
             | H : (_ =? _) = false |- _ => apply Z.eqb_neq in H
             | H : (_ <? _) = false |- _ => apply Z.ltb_ge in H
             end;
      apply Z.ltb_ge; lia.
  - intros Hst Htu Hsu [= <-].
    apply bool_decide_eq_false in Hsu.
    destruct Hst as [Hst|[= Hst]], Htu as [Htu|[= Htu]];
      try apply bool_decide_eq_true in Hst; try apply bool_decide_eq_true in Htu;
      subst; try done.
    by eapply str_geb_trans.
Qed.

Lemma key_ltb_asym (a b : sort_key) : key_ltb a b = Ok true → key_ltb b a = Ok false.
Proof.
  destruct a as [pa sa], b as [pb sb]. unfold key_ltb. cbn [fst snd].
  destruct (Z.eqb_spec pa pb) as [->|Hne].
  - rewrite Z.eqb_refl. destruct (stamp_eqb sa sb); [done|]. intros Hlt.
    rewrite (stamp_ltb_asym _ _ Hlt). by destruct (stamp_eqb sb sa).
  - intros [= Hlt]. apply Z.ltb_lt in Hlt.
    destruct (Z.eqb_spec pb pa); [lia|]. f_equal. apply Z.ltb_ge. lia.
Qed.

Lemma key_ltb_trans (a b c : sort_key) :
  key_ltb a b = Ok true → key_ltb b c = Ok true → key_ltb a c = Ok true.
Proof.
  destruct a as [pa sa], b as [pb sb], c as [pc sc]. unfold key_ltb. cbn [fst snd].
  destruct (Z.eqb_spec pa pb) as [->|Hab], (Z.eqb_spec pb pc) as [->|Hbc].
  - destruct (stamp_eqb sa sb); [done|]. destruct (stamp_eqb sb sc); [done|].
    intros Hst Htu. destruct (stamp_ltb_trans _ _ _ Hst Htu) as [-> ->]. done.
  - intros _ [= Hlt]. apply Z.ltb_lt in Hlt.
    destruct (Z.eqb_spec pb pc); [lia|]. f_equal. by apply Z.ltb_lt.
  - intros [= Hlt] _. apply Z.ltb_lt in Hlt.
    destruct (Z.eqb_spec pa pc); [lia|]. f_equal. by apply Z.ltb_lt.
  - intros [= Hlt] [= Hlt']. apply Z.ltb_lt in Hlt, Hlt'.
    destruct (Z.eqb_spec pa pc); [lia|]. f_equal. apply Z.ltb_lt. lia.
Qed.

Lemma key_geb_trans (a b c : sort_key) (lt : bool) :
  key_ltb a b = Ok false → key_ltb b c = Ok false → key_ltb a c = Ok lt →
  lt = false.
Proof.
  destruct a as [pa sa], b as [pb sb], c as [pc sc]. unfold key_ltb. cbn [fst snd].
  destruct (Z.eqb_spec pa pb) as [->|Hab], (Z.eqb_spec pb pc) as [->|Hbc].
  - intros Hst Htu.
    destruct (stamp_eqb sa sc) eqn:Hsu; [by intros [= <-]|].
    apply (stamp_geb_trans sa sb sc); [| |done].
    + destruct (stamp_eqb sa sb); [by left|by right].
    + destruct (stamp_eqb sb sc); [by left|by right].
  - intros _ [= Hlt]. apply Z.ltb_ge in Hlt.
    destruct (Z.eqb_spec pb pc); [lia|]. intros [= <-]. apply Z.ltb_ge. lia.
  - intros [= Hlt] _. apply Z.ltb_ge in Hlt.
    destruct (Z.eqb_spec pa pc); [lia|]. intros [= <-]. apply Z.ltb_ge. lia.
  - intros [= Hlt] [= Hlt']. apply Z.ltb_ge in Hlt, Hlt'.
    destruct (Z.eqb_spec pa pc); [lia|]. intros [= <-]. apply Z.ltb_ge. lia.
Qed.

End KeyOrder.

Section SortProps.
Context {A : Type}.
Implicit Types (x : sort_key * A) (sorted todo : list (sort_key * A)).

Lemma key_ltb_true (a b : sort_key) : key_ltb a b = Ok true → a.1 ≤ b.1.
Proof.
  unfold key_ltb. destruct (a.1 =? b.1) eqn:He.
  - apply Z.eqb_eq in He. lia.
  - intros [= Hlt]. apply Z.ltb_lt in Hlt. lia.
Qed.

Lemma key_ltb_false (a b : sort_key) : key_ltb a b = Ok false → b.1 ≤ a.1.
Proof.
  unfold key_ltb. destruct (a.1 =? b.1) eqn:He.
  - apply Z.eqb_eq in He. lia.
  - intros [= Hlt]. apply Z.ltb_ge in Hlt. lia.
Qed.

Lemma insort_perm x sorted sorted' :
  insort x sorted = Ok sorted' → sorted' ≡ₚ x :: sorted.
Proof.
  revert sorted'. induction sorted as [|y rest IH]; intros sorted'; cbn [insort].
  - by intros [= <-].
  - destruct (key_ltb x.1 y.1) as [[]|]; [by intros [= <-]| |done].
    destruct (insort x rest) as [rest'|]; [|done]. intros [= <-].
    rewrite (IH rest' eq_refl). apply Permutation_swap.
Qed.

Lemma insort_ascend x sorted sorted' :
  keys_ascend sorted → insort x sorted = Ok sorted' → keys_ascend sorted'.
Proof.
  unfold keys_ascend. revert sorted'.
  induction sorted as [|y rest IH]; intros sorted' Hs; cbn [insort].
  - intros [= <-]. by repeat constructor.
  - apply StronglySorted_inv in Hs as [Hrest Hy].
    destruct (key_ltb x.1 y.1) as [[]|] eqn:Hlt; [| |done].
    + intros [= <-]. apply key_ltb_true in Hlt.
      constructor; [by constructor|]. constructor; [done|].
      eapply Forall_impl; [exact Hy|]. intros z Hz. cbn in *. lia.
    + destruct (insort x rest) as [rest'|] eqn:Hins; [|done]. intros [= <-].
      apply key_ltb_false in Hlt. constructor; [by eapply IH|].
      rewrite (insort_perm _ _ _ Hins). by constructor.
Qed.

Lemma sort_from_spec sorted todo result :
  keys_ascend sorted → sort_from sorted todo = Ok result →
  result ≡ₚ sorted ++ todo ∧ keys_ascend result.
Proof.
  revert sorted. induction todo as [|x todo IH]; intros sorted Hs; cbn [sort_from].
  - intros [= <-]. by rewrite app_nil_r.
  - destruct (insort x sorted) as [sorted'|] eqn:Hins; [|done]. intros Hr.
    destruct (IH sorted' (insort_ascend _ _ _ Hs Hins) Hr) as [Hp Ha].
    split; [|done]. rewrite Hp, (insort_perm _ _ _ Hins).
    apply Permutation_middle.
Qed.

Lemma insort_total x sorted :
  (∀ y, y ∈ sorted → ∃ lt, key_ltb x.1 y.1 = Ok lt) →
  ∃ sorted', insort x sorted = Ok sorted'.
Proof.
  induction sorted as [|y rest IH]; intros Hcmp; cbn [insort]; [by eexists|].
  destruct (Hcmp y) as [lt ->]; [by left|]. destruct lt; [by eexists|].
  destruct IH as [rest' ->]; [|by eexists]. intros z Hz. apply Hcmp. by right.
Qed.

Lemma sort_from_total sorted todo :
  comparable ((sorted ++ todo).*1) → ∃ result, sort_from sorted todo = Ok result.
Proof.
  revert sorted. induction todo as [|x todo IH]; intros sorted Hcmp;
    cbn [sort_from]; [by eexists|].
  destruct (insort_total x sorted) as [sorted' Hins].
  { intros y Hy. apply Hcmp; apply list_elem_of_fmap_2, elem_of_app.
    - right. by left.
    - by left. }
  rewrite Hins. apply IH. intros a b Ha Hb.
  assert (Hsame : (sorted' ++ todo).*1 ≡ₚ (sorted ++ x :: todo).*1).
  { apply fmap_Permutation. rewrite (insort_perm _ _ _ Hins).
    apply Permutation_middle. }
  apply Hcmp; by rewrite <- Hsame.
Qed.

End SortProps.

Section StableProps.
Context {A : Type}.
Implicit Types (x : sort_key * (nat * A)) (sorted todo : list (sort_key * (nat * A))).

Lemma insort_stable x sorted sorted' :
  (∀ y, y ∈ sorted → ∃ lt, key_ltb y.1 x.1 = Ok lt) →
  (∀ y, y ∈ sorted → (y.2.1 < x.2.1)%nat) →
  stably_sorted sorted → insort x sorted = Ok sorted' → stably_sorted sorted'.
Proof.
  unfold stably_sorted. revert sorted'.
  induction sorted as [|y rest IH]; intros sorted' Hcmp Hlater Hs; cbn [insort].
  - intros [= <-]. by repeat constructor.
  - apply StronglySorted_inv in Hs as [Hrest Hy].
    destruct (key_ltb x.1 y.1) as [[]|] eqn:Hxy; [| |done].
    + intros [= <-]. constructor; [by constructor|].
      constructor; [split; [by apply key_ltb_asym|congruence]|].
      rewrite Forall_forall in Hy |- *. intros z Hz.
      destruct (Hy z Hz) as [Hzy _].
      destruct (Hcmp z) as [lt Hzx]; [by right|]. split.
      * destruct lt; [|done]. by rewrite (key_ltb_trans _ _ _ Hzx Hxy) in Hzy.
      * intros Hxz. pose proof (key_geb_trans _ _ _ _ Hxz Hzy Hxy). done.
    + destruct (insort x rest) as [rest'|] eqn:Hins; [|done]. intros [= <-].
      constructor.
      * apply IH; try done; intros z Hz; [apply Hcmp|apply Hlater]; by right.
      * rewrite (insort_perm _ _ _ Hins). constructor; [|done].
        split; [done|]. intros _. apply Hlater. by left.
Qed.

Lemma sort_from_stable sorted todo result :
  comparable (sorted ++ todo).*1 →
  StronglySorted (λ a b : sort_key * (nat * A), (a.2.1 < b.2.1)%nat) todo →
  (∀ y x, y ∈ sorted → x ∈ todo → (y.2.1 < x.2.1)%nat) →
  stably_sorted sorted → sort_from sorted todo = Ok result →
  stably_sorted result.
Proof.
  revert sorted. induction todo as [|x todo IH]; intros sorted Hcmp Htags Hlater Hs;
    cbn [sort_from]; [by intros [= <-]|].
  destruct (insort x sorted) as [sorted'|] eqn:Hins; [|done].
  apply StronglySorted_inv in Htags as [Htags Hx].
  assert (Hsame : sorted' ++ todo ≡ₚ sorted ++ x :: todo).
  { rewrite (insort_perm _ _ _ Hins). apply Permutation_middle. }
  apply IH; [| done | |].
  - intros a b Ha Hb. apply Hcmp; by rewrite <- Hsame.
  - intros y z Hy Hz. rewrite (insort_perm _ _ _ Hins) in Hy.
    apply elem_of_cons in Hy as [->|Hy].
    + rewrite Forall_forall in Hx. by apply Hx.
    + apply Hlater; [done|by right].
  - eapply insort_stable; [| |exact Hs|exact Hins].
    + intros y Hy. apply Hcmp; apply list_elem_of_fmap_2, elem_of_app.
      * by left.
      * right. by left.
    + intros y Hy. apply Hlater; [done|by left].
Qed.

(** The sort looks at the keys only. *)
Lemma insort_untag x sorted :
  insort (untag x) (untag <$> sorted)
  = match insort x sorted with
    | Ok sorted' => Ok (untag <$> sorted')
    | Raise e => Raise e
    end.
Proof.
  induction sorted as [|y rest IH]; [done|].
  rewrite fmap_cons. cbn [insort].
  change (untag x).1 with x.1. change (untag y).1 with y.1.
  destruct (key_ltb x.1 y.1) as [[]|]; [done| |done].
  rewrite IH. by destruct (insort x rest).
Qed.

Lemma sort_from_untag sorted todo :
  sort_from (untag <$> sorted) (untag <$> todo)
  = match sort_from sorted todo with
    | Ok result => Ok (untag <$> result)
    | Raise e => Raise e
    end.
Proof.
  revert sorted. induction todo as [|x todo IH]; intros sorted; [done|].
  rewrite fmap_cons. cbn [sort_from]. rewrite insort_untag.
  destruct (insort x sorted) as [sorted'|]; [apply IH|done].
Qed.

Lemma tag_from_spec (start : nat) (keyed : list (sort_key * A)) :
  let tagged := imap (λ i kt, (kt.1, ((start + i)%nat, kt.2))) keyed in
  untag <$> tagged = keyed
  ∧ StronglySorted (λ a b : sort_key * (nat * A), (a.2.1 < b.2.1)%nat) tagged
  ∧ Forall (λ a : sort_key * (nat * A), (start ≤ a.2.1)%nat) tagged.
Proof.
  revert start. induction keyed as [|[k a] keyed IH]; intros start.
  { cbn. repeat split; constructor. }
  cbn zeta.
  change (imap (λ i kt, (kt.1, ((start + i)%nat, kt.2))) ((k, a) :: keyed))
    with ((k, ((start + 0)%nat, a))
            :: imap ((λ i (kt : sort_key * A), (kt.1, ((start + i)%nat, kt.2))) ∘ S)
                 keyed).
  assert (Hrest : imap ((λ i (kt : sort_key * A), (kt.1, ((start + i)%nat, kt.2))) ∘ S)
                    keyed
                  = imap (λ i kt, (kt.1, ((S start + i)%nat, kt.2))) keyed).
  { apply imap_ext. intros i x _. cbn. do 2 f_equal. lia. }
  rewrite Hrest. destruct (IH (S start)) as (Hun & Hsorted & Hge).
  split; [by rewrite fmap_cons, Hun|]. split.
  - constructor; [done|]. eapply Forall_impl; [exact Hge|]. cbn. lia.
  - constructor; [cbn; lia|]. eapply Forall_impl; [exact Hge|]. cbn. lia.
Qed.

End StableProps.

Section PendingProps.
Context `{DateLib}.

Lemma pending_key_ok (task : dict) (log : list log_record) (kt : sort_key * dict) :
  pending_key task = (log, Ok kt) → kt.2 = task ∧ kt.1.1 = - priority_of task.
Proof.
  unfold pending_key, priority_of.
  destruct (as_int (get_default task "priority" (VInt 0))) as [p|]; [|done].
  destruct (_parse_datetime (get task "created_at")) as [l [s|e]]; [|done].
  rewrite bind_ok. by intros [= _ <-].
Qed.

Lemma mapM_pending_key_ok (tasks : list dict) (log : list log_record)
  (keyed : list (sort_key * dict)) :
  mapM pending_key tasks = (log, Ok keyed) →
  keyed.*2 = tasks ∧ Forall (λ kt, kt.1.1 = - priority_of kt.2) keyed.
Proof.
  revert log keyed. induction tasks as [|task tasks IH]; intros log keyed.
  - by intros [= _ <-].
  - cbn [mapM].
    destruct (pending_key task) as [l [kt|e]] eqn:Hk; [|done]. rewrite bind_ok.
    destruct (mapM pending_key tasks) as [l' [keyed'|e]]; [|done].
    rewrite bind_ok. cbn. intros [= _ <-].
    apply pending_key_ok in Hk as [Ht Hp].
    destruct (IH l' keyed' eq_refl) as [Hts Hps].
    split; [by rewrite fmap_cons, Ht, Hts|].
    apply Forall_cons. split; [|done].
    destruct kt as [[p s] t]. cbn in *. by subst.
Qed.

(** X6: what [iter_pending] returns, when it returns: the tasks whose
    status is [pending], each once, higher priorities first. *)
Theorem iter_pending_by_priority (items tasks : list dict) (log : list log_record) :
  iter_pending items = (log, Ok tasks) →
  tasks ≡ₚ filter (λ task, is_pending task) items ∧ by_priority tasks.
Proof.
  unfold iter_pending, sort_keyed.
  destruct (mapM pending_key _) as [l [keyed|e]] eqn:Hk; [|done].
  rewrite bind_ok. destruct (sort_from [] keyed) as [sorted|e] eqn:Hs; [|done].
  rewrite bind_ok. cbn. intros [= _ <-].
  apply mapM_pending_key_ok in Hk as [Hts Hps].
  destruct (sort_from_spec [] keyed sorted) as [Hperm Hasc]; [constructor|done|].
  cbn in Hperm. split; [by rewrite <- Hts, Hperm|].
  assert (Hps' : Forall (λ kt : sort_key * dict, kt.1.1 = - priority_of kt.2) sorted)
    by (by rewrite Hperm).
  unfold by_priority. clear -Hasc Hps'.
  induction Hasc as [|kt sorted Hsorted IH Hkt]; [constructor|].
  apply Forall_cons in Hps' as [Hp Hps]. cbn. constructor; [by apply IH|].
  apply Forall_fmap. rewrite Forall_forall in Hkt, Hps |- *.
  intros kt' Hin. specialize (Hkt kt' Hin). specialize (Hps kt' Hin). cbn. lia.
Qed.

(** X7: when the keys of the pending tasks can be computed and are
    comparable with one another, [iter_pending] returns, and what it
    returns is the pending tasks in the order of a stable sort by key:
    by priority, highest first; at one priority by [created_at],
    earliest first; and tasks that the key does not separate in the
    order of the input. *)
Theorem iter_pending_stable (items : list dict) (log : list log_record)
  (keyed : list (sort_key * dict)) :
  mapM pending_key (filter (λ task, is_pending task) items) = (log, Ok keyed) →
  comparable keyed.*1 →
  ∃ tagged,
    tagged ≡ₚ tag keyed ∧ stably_sorted tagged
    ∧ iter_pending items = (log, Ok ((λ kt, kt.2.2) <$> tagged)).
Proof.
  intros Hk Hcmp.
  destruct (tag_from_spec 0 keyed) as (Hun & Htags & _). cbn zeta in Hun, Htags.
  change (imap (λ i kt, (kt.1, ((0 + i)%nat, kt.2))) keyed) with (tag keyed)
    in Hun, Htags.
  assert (Hkeys : (tag keyed).*1 = keyed.*1).
  { rewrite <- Hun at 2. rewrite <- list_fmap_compose. done. }
  destruct (sort_from_total [] (tag keyed)) as [tagged Hs].
  { cbn [app]. by rewrite Hkeys. }
  exists tagged.
  destruct (sort_from_spec [] (tag keyed) tagged) as [Hperm _]; [constructor|done|].
  split; [exact Hperm|]. split.
  - eapply (sort_from_stable [] (tag keyed)); try done.
    + cbn [app]. by rewrite Hkeys.
    + intros y x Hy. by apply elem_of_nil in Hy.
    + constructor.
  - unfold iter_pending, sort_keyed. rewrite Hk, bind_ok. cbn [fst snd].
    pose proof (sort_from_untag [] (tag keyed)) as Hsort.
    rewrite Hs, Hun in Hsort. cbn [fmap list_fmap] in Hsort. rewrite Hsort.
    cbn. rewrite app_nil_r. by rewrite <- list_fmap_compose.
Qed.

(** Two pending tasks whose keys [<] does not compare: the sort raises. *)
Lemma iter_pending_incomparable (a b : dict) (la lb : list log_record)
  (ka kb : sort_key) :
  is_pending a = true → is_pending b = true →
  pending_key a = (la, Ok (ka, a)) → pending_key b = (lb, Ok (kb, b)) →
  key_ltb kb ka = Raise TypeError →
  iter_pending [a; b] = (la ++ lb, Raise TypeError).
Proof.
  intros Ha Hb Hka Hkb Hlt. unfold iter_pending.
  rewrite !filter_cons, filter_nil, !decide_True by by apply Is_true_true.
  cbn [mapM]. rewrite Hka, bind_ok, Hkb, bind_ok.
  cbn. by rewrite Hlt, !app_nil_r.
Qed.

End PendingProps.

(** * The properties on the sample data *)

(** ** Pending tasks of one priority, one with a time and one without *)

(** C1 at a failing input: two pending tasks of priority 1, the first
    created at [2024-01-01T00:00:00], the second with [not-a-date] for its
    [created_at]. [iter_pending] logs that the second text does not parse
    and then raises [TypeError], where the specification has it return
    the two tasks in a definite order. *)
Theorem iter_pending_mixed_stamps_raises :
  @iter_pending Ref.dates [Sample.dated; Sample.undated]
  = ([(WARNING, DatetimeUnparsed "not-a-date")], Raise TypeError).
Proof. vm_compute. reflexivity. Qed.

(** The other order of the two tasks raises as well. *)
Example iter_pending_mixed_stamps_reversed :
  @iter_pending Ref.dates [Sample.undated; Sample.dated]
  = ([(WARNING, DatetimeUnparsed "not-a-date")], Raise TypeError).
Proof. vm_compute. reflexivity. Qed.

(** So do two times that both parse, one with a UTC offset and one
    without. *)
Example iter_pending_naive_and_aware_raises :
  @iter_pending Ref.dates [Sample.dated; Sample.aware] = ([], Raise TypeError).
Proof. vm_compute. reflexivity. Qed.

(** Times that all parse: by priority, then by time, then as in the
    input. *)
Example iter_pending_orders :
  @iter_pending Ref.dates
    [Sample.task "p1" "pending" 1 "2024-01-01T00:00:00";
     Sample.task "mar" "pending" 5 "2024-03-01T00:00:00";
     Sample.task "run" "in_progress" 9 "2024-01-01T00:00:00";
     Sample.task "feb" "pending" 5 "2024-02-01T00:00:00";
     Sample.task "FEB" "pending" 5 "2024-02-01 00:00:00"]
  = ([], Ok [Sample.task "feb" "pending" 5 "2024-02-01T00:00:00";
             Sample.task "FEB" "pending" 5 "2024-02-01 00:00:00";
             Sample.task "mar" "pending" 5 "2024-03-01T00:00:00";
             Sample.task "p1" "pending" 1 "2024-01-01T00:00:00"]).
Proof. vm_compute. reflexivity. Qed.

(** Texts that all fail to parse: by code points. *)
Example iter_pending_unparsed :
  @iter_pending Ref.dates
    [Sample.task "z" "pending" 1 "zeta"; Sample.task "a" "pending" 1 "alpha"]
  = ([(WARNING, DatetimeUnparsed "zeta"); (WARNING, DatetimeUnparsed "alpha")],
     Ok [Sample.task "a" "pending" 1 "alpha"; Sample.task "z" "pending" 1 "zeta"]).
Proof. vm_compute. reflexivity. Qed.

(** A task of another priority is never compared by its [created_at]. *)
Example iter_pending_priorities_decide :
  @iter_pending Ref.dates [Sample.undated; Sample.t1; Sample.task "d" "done" 9 ""]
  = ([(WARNING, DatetimeUnparsed "not-a-date")], Ok [Sample.t1; Sample.undated]).
Proof. vm_compute. reflexivity. Qed.

(** ** Saving and loading *)

Lemma save_then_load_witness :
  Forall (λ t, @queue_schema Ref.schemas t = true ∧ @round_trips Ref.json t)
    Sample.queue
  ∧ (@save_queue_atomic Ref.json (fault_free "tmpq0x1e") ∅ "queue.jsonl"
       Sample.queue).2.2 = Ok tt
  ∧ ∃ log loaded,
      @load_queue Ref.json Ref.schemas
        (@save_queue_atomic Ref.json (fault_free "tmpq0x1e") ∅ "queue.jsonl"
           Sample.queue).1 "queue.jsonl" = (log, Ok loaded)
      ∧ loaded = Sample.queue
      ∧ fields <$> loaded = fields <$> Sample.queue.
Proof.
  assert (Hq : Forall (λ t, @queue_schema Ref.schemas t = true
                           ∧ @round_trips Ref.json t) Sample.queue).
  { repeat constructor; vm_compute; reflexivity. }
  split; [exact Hq|]. split; [reflexivity|].
  apply (@save_then_load Ref.json Ref.schemas); [exact Hq|reflexivity].
Defined.

(** Scenario 4 of the specification. *)
Example load_queue_damaged :
  @load_queue Ref.json Ref.schemas (<["queue.jsonl" := Sample.damaged_queue]> ∅)
    "queue.jsonl"
  = ([(ERROR, ParseFailed 2); (INFO, Loaded 2 1)], Ok [Sample.t1; Sample.dated]).
Proof. vm_compute. reflexivity. Qed.

(** ** A save that fails *)

(** C3 as stated fails when the removal of the temporary file fails too:
    the third record cannot be written, [os.remove] raises, the exception
    of [os.remove] is swallowed, and the temporary file stays. *)
Lemma cleans_up_refuted :
  ¬ @cleans_up Ref.json disk_trouble Sample.disk "queue.jsonl" Sample.queue.
Proof.
  intros Hc. destruct (Hc (WriteRecord 2) eq_refl eq_refl) as [Htmp _].
  vm_compute in Htmp. discriminate Htmp.
Qed.

Lemma save_failure_keeps_queue_witness :
  Sample.disk !! tmp_name disk_trouble = None
  ∧ tmp_name disk_trouble ≠ "queue.jsonl"
  ∧ failing_step disk_trouble (length Sample.queue) = Some (WriteRecord 2)
  ∧ (@save_queue_atomic Ref.json disk_trouble Sample.disk "queue.jsonl"
       Sample.queue).2.2 = Raise OSError
  ∧ (@save_queue_atomic Ref.json disk_trouble Sample.disk "queue.jsonl"
       Sample.queue).1 !! "queue.jsonl" = Sample.disk !! "queue.jsonl".
Proof.
  assert (Hfresh : Sample.disk !! tmp_name disk_trouble = None) by reflexivity.
  assert (Hne : tmp_name disk_trouble ≠ "queue.jsonl") by discriminate.
  assert (Hstep : failing_step disk_trouble (length Sample.queue)
                  = Some (WriteRecord 2)) by reflexivity.
  destruct (@save_failure_keeps_queue Ref.json disk_trouble Sample.disk
              "queue.jsonl" Sample.queue (WriteRecord 2) Hfresh Hne Hstep)
    as (Hraise & Hpath & _).
  repeat split; assumption.
Defined.

(** ** Blocks *)

Lemma read_block_strict_iff_ok_witness :
  @json_loads Ref.json (Ref.dumps (VDict (Sample.block "ok" 100)))
  = Some (VDict (Sample.block "ok" 100))
  ∧ ∀ rule,
      rule ∈ flags (@read_block Ref.json Ref.schemas Ref.codecs
                      (<["b1.json" := Ref.dumps (VDict (Sample.block "ok" 100))]> ∅)
                      "b1.json").1 →
      (@read_block Ref.json Ref.schemas Ref.codecs
         (<["b1.json" := Ref.dumps (VDict (Sample.block "ok" 100))]> ∅)
         "b1.json").2 = Raise (BlockValidationError rule).
Proof.
  assert (Hload : @json_loads Ref.json (Ref.dumps (VDict (Sample.block "ok" 100)))
                  = Some (VDict (Sample.block "ok" 100)))
    by (vm_compute; reflexivity).
  split; [exact Hload|].
  pose proof (@read_block_strict_iff_ok Ref.json Ref.schemas Ref.codecs ∅ "b1.json"
                _ _ Hload) as Hread.
  cbn zeta in Hread.
  change (eq_str (get (Sample.block "ok" 100) "status") "ok") with true in Hread.
  exact (proj2 Hread).
Defined.

Lemma exact_size_and_hash_not_flagged_witness :
  get_default (Sample.block "ok" 2) "text" (VStr "") = VStr "hi"
  ∧ @str_encode Ref.codecs "utf-8" "hi" = Some [104; 105]
  ∧ ((WARNING, Flagged SizeTolerance)
       ∉ (@validate_block Ref.schemas Ref.codecs (Sample.block "ok" 2) false).1)
  ∧ (@validate_block Ref.schemas Ref.codecs (Sample.block "ok" 2) true).2
    ≠ Raise (BlockValidationError HashMatch).
Proof.
  split; [reflexivity|]. split; [reflexivity|]. split.
  - apply (@exact_size_and_hash_not_flagged Ref.schemas Ref.codecs
             (Sample.block "ok" 2) false "hi" "utf-8" [104; 105]
             SizeTolerance WARNING); first [reflexivity | by left].
  - apply (@exact_size_and_hash_not_flagged Ref.schemas Ref.codecs
             (Sample.block "ok" 2) true "hi" "utf-8" [104; 105]
             HashMatch ERROR); first [reflexivity | by right].
Defined.

(** Scenario 1 of the specification: the block validates in strict mode
    and nothing is logged. *)
Example scenario_clean_block :
  @validate_block Ref.schemas Ref.codecs (Sample.block "ok" 2) true = ([], Ok tt).
Proof. vm_compute. reflexivity. Qed.

(** Scenario 2: a recorded size of 100 raises in strict mode and is a
    warning in soft mode. *)
Example scenario_wrong_size :
  @validate_block Ref.schemas Ref.codecs (Sample.block "ok" 100) true
  = ([(ERROR, Flagged SizeTolerance)], Raise (BlockValidationError SizeTolerance))
  ∧ @validate_block Ref.schemas Ref.codecs (Sample.block "damaged" 100) false
    = ([(WARNING, Flagged SizeTolerance); (WARNING, BlockStatus "damaged")], Ok tt).
Proof. split; vm_compute; reflexivity. Qed.

(** ** Reports *)



(** Scenario 5 of the specification: two errors of one block with
    different timestamps are two files, both kept. *)
Example scenario_two_errors :
  let files :=
    (@write_error Ref.json Ref.schemas no_fault Sample.one_report "/data" "b1" "t1"
       "Network" "timeout" None "2024-01-01T00:00:09Z").1 in
  preserved Sample.one_report files ∧ size files = 2%nat.
Proof.
  split; [|vm_compute; reflexivity].
  intros p text Hp.
  destruct (decide (p = error_file "/data" "b1")) as [->|Hne].
  - vm_compute in Hp |- *. exact Hp.
  - exfalso. revert Hp. unfold Sample.one_report, Sample.report_error, write_error.
    cbn [fst negb]. vm_compute (error_schema _). cbn [negb mkdir_fails no_fault dump_fails].
    change (exists_ ∅ _) with false. cbn [fst].
    rewrite lookup_insert_ne by (intros Heq; apply Hne; by rewrite <- Heq).
    by rewrite lookup_empty.
Qed.

(** ** The lifecycle *)

(** Scenario 3 of the specification. *)
Example scenario_lifecycle :
  ∃ started failed,
    mark_in_progress [Sample.t1] "t1"
    = ([(INFO, Marked "t1" "in_progress")], Ok started)
    ∧ mark_in_progress started "t1"
      = ([(INFO, AlreadyIn "t1" "in_progress")], Ok started)
    ∧ mark_error started "t1" "boom" "e.json" "2024-01-02T00:00:00Z"
      = ([(INFO, Marked "t1" "error")], Ok failed)
    ∧ mark_done failed "t1" "r.json" "2024-01-02T00:00:01Z"
      = ([(ERROR, CannotMark "t1" "done" (VStr "error"))], Ok failed)
    ∧ (λ task, get task "status") <$> failed = [VStr "error"].
Proof. do 2 eexists. repeat split; vm_compute; reflexivity. Qed.

(** * Further properties of the sources *)

(** ** Loading *)

Section MoreLoadProps.
Context `{JsonLib} `{Schemas}.

Lemma accepted_Some (line : string) (task : dict) :
  accepted line = Some task →
  json_loads line = Some (VDict task) ∧ queue_schema task = true.
Proof.
  unfold accepted. destruct (json_loads line) as [entry|]; [|done]. cbn.
  destruct entry as [| | | | |d]; try done. cbn.
  destruct (queue_schema d) eqn:Hs; [|done]. by intros [= <-].
Qed.


Lemma kept_or_skipped (ls : list (nat * string)) :
  (length (omap kept ls) + length (omap skip_reason ls))%nat
  = length (filter (λ l, is_empty l = false) ((λ il, rstrip is_newline il.2) <$> ls)).
Proof.
  induction ls as [|[idx line] ls IH]; [done|].
  rewrite fmap_cons, filter_cons, !omap_cons. unfold kept at 1, skip_reason at 1, accepted.
  cbn [fst snd].
  destruct (is_empty (rstrip is_newline line)) eqn:He.
  - rewrite decide_False by done. exact IH.
  - rewrite decide_True by done. cbn [length]. rewrite <- IH.
    destruct (json_loads (rstrip is_newline line)) as [entry|]; cbn; [|lia].
    destruct (validate_queue_entry entry); cbn; lia.
Qed.

Lemma enumerate_snd {A : Type} (start : nat) (xs : list A) :
  (enumerate start xs).*2 = xs.
Proof.
  unfold enumerate. revert start. induction xs as [|x xs IH]; intros start; [done|].
  change (imap (λ i x, ((start + i)%nat, x)) (x :: xs))
    with (((start + 0)%nat, x) :: imap ((λ i x, ((start + i)%nat, x)) ∘ S) xs).
  rewrite fmap_cons. cbn [snd]. f_equal.
  rewrite <- (IH (S start)) at 2. f_equal. apply imap_ext. intros i y _. cbn.
  f_equal. lia.
Qed.




End MoreLoadProps.

Lemma text_lines_from_crlf (l cur rest : string) :
  one_line l = true →
  text_lines_from cur (l +:+ crlf +:+ rest)
  = (cur +:+ l +:+ newline) :: text_lines_from EmptyString rest.
Proof.
  revert cur. induction l as [|c l IH]; intros cur Hl.
  - rewrite !app_empty_l. unfold crlf. rewrite !app_cons, app_empty_l.
    cbn [text_lines_from]. rewrite bool_decide_false by done.
    by rewrite !bool_decide_true.
  - apply one_line_cons in Hl as (Hlf & Hcr & Hl).
    rewrite app_cons. cbn [text_lines_from]. rewrite Hlf, Hcr, IH by done.
    by rewrite app_assoc_str, app_cons, app_empty_l.
Qed.

Lemma text_lines_crlf (ls : list string) :
  Forall (λ l, one_line l = true) ls →
  text_lines (file_of crlf ls) = text_lines (file_of newline ls).
Proof.
  intros Hls. unfold file_of. rewrite (text_lines_concat ls Hls).
  unfold text_lines. induction Hls as [|l ls Hl _ IH]; [done|].
  rewrite !fmap_cons. cbn [concat_lines foldr].
  fold (concat_lines ((λ l, l +:+ crlf) <$> ls)).
  rewrite app_assoc_str, text_lines_from_crlf by done.
  by rewrite IH, app_empty_l.
Qed.

Section LineEndProps.
Context `{JsonLib} `{Schemas}.

(** X3: line ends do not matter to [load_queue]: a file whose lines end
    in carriage return and line feed loads as the file with the same lines
    ended by a line feed does, records and log alike. *)
Theorem load_queue_crlf (files : fs) (path : string) (lines : list string) :
  Forall (λ l, one_line l = true) lines →
  load_queue (<[path := file_of crlf lines]> files) path
  = load_queue (<[path := file_of newline lines]> files) path.
Proof.
  intros Hlines. rewrite !load_queue_lines. by rewrite text_lines_crlf.
Qed.

End LineEndProps.

(** ** Pending tasks *)

Section MorePendingProps.
Context `{DateLib}.

Lemma mapM_raises {A B : Type} (f : A → M B) (xs : list A) (x : A) :
  x ∈ xs → raised (f x) = true → raised (mapM f xs) = true.
Proof.
  intros Hin Hx. induction xs as [|y xs IH]; [by apply elem_of_nil in Hin|].
  cbn [mapM]. destruct (f y) as [l [b|e]] eqn:Hy; [|done].
  apply elem_of_cons in Hin as [->|Hin]; [by rewrite Hy in Hx|].
  rewrite bind_ok. specialize (IH Hin).
  destruct (mapM f xs) as [l' [bs|e]]; [done|]. by rewrite bind_raise.
Qed.

(** X4: a pending task whose [priority] is there but is no integer (a
    null, a text, a list, an object) makes [iter_pending] raise, wherever
    the task is in the list; a task without [priority] counts as 0. *)
Theorem iter_pending_needs_integer_priority (items : list dict) (task : dict) :
  task ∈ items → is_pending task = true →
  as_int (get_default task "priority" (VInt 0)) = None →
  raised (iter_pending items) = true.
Proof.
  intros Hin Hp Hprio. unfold iter_pending.
  assert (Hkeys : raised (mapM pending_key (filter (λ t, is_pending t) items)) = true).
  { apply (mapM_raises _ _ task).
    - apply list_elem_of_filter. split; [by apply Is_true_true|done].
    - unfold pending_key. by rewrite Hprio. }
  destruct (mapM pending_key _) as [l [keyed|e]]; [done|]. by rewrite bind_raise.
Qed.

(** A text always has a key, a date or a text, whatever the parsers do. *)
Lemma parse_datetime_str (s : string) :
  ∃ log stamp, _parse_datetime (VStr s) = (log, Ok stamp) ∧ stamp ≠ SNone.
Proof.
  unfold _parse_datetime. destruct (is_empty (strip s)); [by do 2 eexists|].
  destruct (match strip_final_Z (strip s) with
            | Some front => fromisoformat (front +:+ "+00:00")
            | None => fromisoformat (strip s)
            end); [by do 2 eexists|].
  destruct (strptime (strip s) "%Y-%m-%dT%H:%M:%S"); by do 2 eexists.
Qed.

(** X5: two pending tasks of one priority, one without [created_at] (or
    with a null one) and one with a text for it, make [iter_pending] raise
    [TypeError] in either order, whatever the text is and whether or not
    it parses. *)
Theorem iter_pending_missing_created_at
  (a b : dict) (priority : Z) (created_at : string) :
  is_pending a = true → is_pending b = true →
  as_int (get_default a "priority" (VInt 0)) = Some priority →
  as_int (get_default b "priority" (VInt 0)) = Some priority →
  get a "created_at" = VNone → get b "created_at" = VStr created_at →
  (iter_pending [a; b]).2 = Raise TypeError
  ∧ (iter_pending [b; a]).2 = Raise TypeError.
Proof.
  intros Ha Hb Hpa Hpb Hca Hcb.
  destruct (parse_datetime_str created_at) as (lb & sb & Hsb & Hnone).
  assert (Hka : pending_key a = ([], Ok ((- priority, SNone), a))).
  { unfold pending_key. by rewrite Hpa, Hca. }
  assert (Hkb : pending_key b = (lb, Ok ((- priority, sb), b))).
  { unfold pending_key. rewrite Hpb, Hcb, Hsb, bind_ok. cbn. by rewrite app_nil_r. }
  split.
  - rewrite (iter_pending_incomparable a b [] lb _ _ Ha Hb Hka Hkb); [done|].
    unfold key_ltb. cbn [fst snd]. rewrite Z.eqb_refl. by destruct sb.
  - rewrite (iter_pending_incomparable b a lb [] _ _ Hb Ha Hkb Hka); [done|].
    unfold key_ltb. cbn [fst snd]. rewrite Z.eqb_refl. by destruct sb.
Qed.

End MorePendingProps.

(** ** The lifecycle *)

Section MoreLifecycleProps.

Lemma get_id_updated (tr : transition) (task : dict) :
  get (updated tr task) "id" = get task "id".
Proof. destruct tr; by get_updated. Qed.

(** Replacing elements that are not looked for, by others that are not
    looked for either, does not change what is found. *)
Lemma list_find_insert_other {A : Type} (P : A → Prop) `{∀ x, Decision (P x)}
  (l : list A) (i : nat) (x y : A) :
  l !! i = Some x → ¬ P x → ¬ P y → list_find P (<[i := y]> l) = list_find P l.
Proof.
  revert i. induction l as [|z l IH]; intros i Hi Hx Hy; [done|].
  unfold list_find in *. destruct i as [|i]; simpl.
  - injection Hi as ->. by rewrite !decide_False.
  - destruct (decide (P z)); [done|]. by rewrite (IH i Hi Hx Hy).
Qed.

Lemma find_task_insert (items : list dict) (task_id : string) (i : nat)
  (task task' : dict) :
  find_task items task_id = Some (i, task) → get task' "id" = get task "id" →
  find_task (<[i := task']> items) task_id = Some (i, task').
Proof.
  unfold find_task. intros Hf Hid.
  apply list_find_Some in Hf as (Hi & Hp & Hbefore). apply list_find_Some.
  split; [apply list_lookup_insert_eq; by eapply lookup_lt_Some|].
  split; [by rewrite Hid|]. intros j y Hj Hlt.
  rewrite list_lookup_insert_ne in Hj by lia. by eapply Hbefore.
Qed.

Lemma find_task_insert_other (items : list dict) (id id' : string) (i : nat)
  (task task' : dict) :
  find_task items id = Some (i, task) → get task' "id" = get task "id" → id ≠ id' →
  find_task (<[i := task']> items) id' = find_task items id'.
Proof.
  intros Hf Hid Hne. apply find_task_Some in Hf as [Hi Htask].
  assert (Hno : ¬ eq_str (get task "id") id').
  { destruct (get task "id") as [| | |s| |]; try done. cbn in *.
    apply bool_decide_eq_true in Htask. subst s.
    rewrite bool_decide_false by done. tauto. }
  unfold find_task. eapply list_find_insert_other; [exact Hi|done|by rewrite Hid].
Qed.

(** X8: a transition changes at most one task, the first of the list with
    the given id: the list keeps its length, every other task is as it
    was, and the task changed keeps its id. The tasks of the list are
    objects of their own, as [load_queue] builds them: each position of
    the list stands for one record. *)
Theorem transitions_change_one_task
  (tr : transition) (items : list dict) (task_id : string) :
  ∃ log items',
    run tr items task_id = (log, Ok items')
    ∧ length items' = length items
    ∧ (λ task, get task "id") <$> items' = (λ task, get task "id") <$> items
    ∧ ∀ j, (∀ i task, find_task items task_id = Some (i, task) → j ≠ i) →
           items' !! j = items !! j.
Proof.
  destruct (find_task items task_id) as [[i task]|] eqn:Hf.
  - destruct (run_found tr items task_id i task Hf) as (log & _ & Hrun).
    apply find_task_Some in Hf as [Hi _].
    exists log. eexists. split; [exact Hrun|].
    destruct (table tr (get task "status")); try (by repeat split).
    split; [apply length_insert|]. split.
    + rewrite list_fmap_insert, get_id_updated. apply list_insert_id.
      by rewrite list_lookup_fmap, Hi.
    + intros j Hj. apply list_lookup_insert_ne. intros ->. by eapply Hj.
  - destruct (run_missing tr items task_id Hf) as (log & _ & Hrun).
    by exists log, items.
Qed.

(** A task that is [done] or in [error] takes no transition. *)
Lemma terminal_table (tr : transition) (task : dict) :
  has_status task "done" || has_status task "error" = true →
  table tr (get task "status") ≠ Mutated.
Proof.
  unfold has_status. destruct (get task "status") as [| | |s| |]; try done.
  cbn. intros Hs. apply orb_true_iff in Hs as [Hs|Hs];
    apply bool_decide_eq_true in Hs; subst; by destruct tr.
Qed.

(** X9: [done] and [error] are final: whatever transitions are asked, in
    whatever order and number, of a task that is [done] or in [error],
    the list of tasks stays as it is and no call raises. *)
Theorem terminal_tasks_stay
  (trs : list transition) (items : list dict) (task_id : string)
  (i : nat) (task : dict) :
  find_task items task_id = Some (i, task) →
  has_status task "done" || has_status task "error" = true →
  (run_all trs items task_id).2 = Ok items.
Proof.
  intros Hf Hterm. unfold run_all. induction trs as [|tr trs IH]; [done|].
  cbn [for_each].
  destruct (run_found tr items task_id i task Hf) as (log & _ & Hrun).
  rewrite Hrun, bind_ok. pose proof (terminal_table tr task Hterm) as Hno.
  destruct (table tr (get task "status")); try done; exact IH.
Qed.

(** X10: asking a transition a second time changes nothing: after any
    call, the same call again returns the list the first one returned. *)
Theorem transitions_idempotent
  (tr : transition) (items : list dict) (task_id : string) :
  ∃ log items' log',
    run tr items task_id = (log, Ok items')
    ∧ run tr items' task_id = (log', Ok items').
Proof.
  destruct (find_task items task_id) as [[i task]|] eqn:Hf.
  - destruct (run_found tr items task_id i task Hf) as (log & _ & Hrun).
    destruct (table tr (get task "status")) eqn:Ht.
    + destruct (run_found tr items task_id i task Hf) as (log' & _ & Hrun').
      rewrite Ht in Hrun'. by exists log, items, log'.
    + destruct (run_found tr items task_id i task Hf) as (log' & _ & Hrun').
      rewrite Ht in Hrun'. by exists log, items, log'.
    + destruct (run_found tr items task_id i task Hf) as (log' & _ & Hrun').
      rewrite Ht in Hrun'. by exists log, items, log'.
    + pose proof (find_task_insert items task_id i task (updated tr task) Hf
                    (get_id_updated tr task)) as Hf'.
      destruct (run_found tr _ task_id i _ Hf') as (log' & _ & Hrun').
      exists log. eexists. exists log'. split; [exact Hrun|]. rewrite Hrun'.
      assert (Hnoop : table tr (get (updated tr task) "status") = NoOp)
        by (destruct tr; by get_updated).
      by rewrite Hnoop.
  - destruct (run_missing tr items task_id Hf) as (log & _ & Hrun).
    by exists log, items, log.
Qed.

End MoreLifecycleProps.

Section CommuteProps.

Lemma after_spec (tr : transition) (task_id : string) (items : list dict) :
  after tr task_id items
  = match find_task items task_id with
    | Some (i, task) =>
        match table tr (get task "status") with
        | Mutated => <[i := updated tr task]> items
        | _ => items
        end
    | None => items
    end.
Proof.
  unfold after. destruct (find_task items task_id) as [[i task]|] eqn:Hf.
  - destruct (run_found tr items task_id i task Hf) as (log & _ & ->). done.
  - destruct (run_missing tr items task_id Hf) as (log & _ & ->). done.
Qed.

Lemma find_task_after_other (tr : transition) (id id' : string) (items : list dict) :
  id ≠ id' → find_task (after tr id items) id' = find_task items id'.
Proof.
  intros Hne. rewrite after_spec.
  destruct (find_task items id) as [[i task]|] eqn:Hf; [|done].
  destruct (table tr (get task "status")); try done.
  eapply find_task_insert_other; [exact Hf|apply get_id_updated|done].
Qed.

Lemma found_apart (items : list dict) (id id' : string) (i j : nat) (t t' : dict) :
  id ≠ id' → find_task items id = Some (i, t) → find_task items id' = Some (j, t') →
  i ≠ j.
Proof.
  intros Hne Hi Hj ->. apply find_task_Some in Hi as [Hi Ht].
  apply find_task_Some in Hj as [Hj Ht']. rewrite Hi in Hj. injection Hj as <-.
  destruct (get t "id"); try done. cbn in *.
  apply bool_decide_eq_true in Ht, Ht'. congruence.
Qed.

(** X11: transitions of tasks with different ids do not interfere: asked
    in either order they leave the same list. *)
Theorem transitions_commute
  (tr tr' : transition) (id id' : string) (items : list dict) :
  id ≠ id' →
  after tr' id' (after tr id items) = after tr id (after tr' id' items).
Proof.
  intros Hne.
  rewrite (after_spec tr' id' (after tr id items)), find_task_after_other by done.
  rewrite (after_spec tr id (after tr' id' items)), find_task_after_other by done.
  rewrite !after_spec.
  destruct (find_task items id) as [[i t]|] eqn:Hi,
           (find_task items id') as [[j t']|] eqn:Hj; try done.
  pose proof (found_apart items id id' i j t t' Hne Hi Hj) as Hij.
  destruct (table tr (get t "status")), (table tr' (get t' "status")); try done.
  by apply list_insert_insert_ne.
Qed.

End CommuteProps.

(** ** Saving *)

Section MoreSaveProps.
Context `{JsonLib} `{Schemas}.

(** X12: a [save_queue_atomic] that returns has put at the target path
    one line for each record, in the order of the list; it leaves no
    temporary file, touches no other file, and logs that the queue was
    saved. *)
Theorem save_writes_queue
  (io : io_plan) (files : fs) (path : string) (items : list dict) :
  files !! tmp_name io = None →
  (save_queue_atomic io files path items).2.2 = Ok tt →
  save_queue_atomic io files path items
  = (<[path := file_of newline ((λ task, json_dumps (VDict task)) <$> items)]> files,
     ([(INFO, QueueSaved path)], Ok tt)).
Proof.
  intros Hfresh. unfold file_of. rewrite <- list_fmap_compose.
  unfold save_queue_atomic, write_records.
  destruct (create_fails io); [done|].
  assert (Hclean : ∀ written,
            delete (tmp_name io) (<[tmp_name io := written]> files) = files)
    by (intros written; by rewrite delete_insert_eq, delete_id).
  destruct (write_fails io) as [k|]; [destruct (k <? _)%nat|];
    cbn [orb]; [done| |];
    destruct (flush_fails io), (fsync_fails io), (close_fails io),
      (replace_fails io); cbn; try done;
    intros _; by rewrite Hclean.
Qed.

(** X13: saving what was loaded keeps it: when [load_queue] has returned
    a list and [json.loads] reads back what [json.dumps] writes for its
    records, a [save_queue_atomic] of that list that returns, to any
    path, followed by a [load_queue] of that path returns the same list
    and skips no line. *)
Theorem load_save_load
  (io : io_plan) (files : fs) (path path' : string) (items : list dict) :
  (load_queue files path).2 = Ok items →
  Forall round_trips items →
  (save_queue_atomic io files path' items).2.2 = Ok tt →
  load_queue (save_queue_atomic io files path' items).1 path'
  = ([(INFO, Loaded (length items) 0)], Ok items).
Proof.
  intros Hload Hrt Hsaved.
  assert (Hvalid : Forall (λ t, queue_schema t = true ∧ round_trips t) items).
  { apply Forall_forall. intros task Hin. split; [|by eapply Forall_forall in Hrt].
    destruct (files !! path) as [content|] eqn:Hfile;
      [|by unfold load_queue in Hload; rewrite Hfile in Hload].
    rewrite <- (insert_id _ _ _ Hfile), load_queue_lines in Hload.
    injection Hload as <-. rewrite omap_kept_enumerate in Hin.
    apply list_elem_of_omap in Hin as (line & _ & Hacc).
    by apply accepted_Some in Hacc as [_ Hschema]. }
  apply save_returns in Hsaved.
  rewrite <- (insert_id _ _ _ Hsaved), load_queue_lines.
  assert (Hlines : (λ task, json_dumps (VDict task) +:+ newline) <$> items
                   = (λ l, l +:+ newline) <$> ((λ t, json_dumps (VDict t)) <$> items))
    by (by rewrite <- list_fmap_compose).
  rewrite Hlines, text_lines_concat.
  2:{ apply Forall_fmap. eapply Forall_impl; [exact Hrt|]. by intros t (_ & Hone & _). }
  set (lines := (λ l, l +:+ newline) <$> ((λ t, json_dumps (VDict t)) <$> items)).
  pose proof (kept_or_skipped (enumerate 1 lines)) as Hcount.
  assert (Hkept : omap kept (enumerate 1 lines) = items)
    by (rewrite omap_kept_enumerate; by apply accepted_dumps).
  rewrite Hkept in *.
  assert (Hnone : omap skip_reason (enumerate 1 lines) = []).
  { apply length_zero_iff_nil.
    assert (Hall : (length (filter (λ l, is_empty l = false)
                              ((λ il, rstrip is_newline il.2) <$> enumerate 1 lines))
                    ≤ length items)%nat).
    { etransitivity; [apply length_filter|].
      rewrite length_fmap, <- (length_fmap snd), enumerate_snd.
      unfold lines. by rewrite !length_fmap. }
    lia. }
  by rewrite Hnone.
Qed.

End MoreSaveProps.

(** ** The two modes of the validator *)

Section MoreModeProps.
Context `{Schemas} `{CodecLib}.

Lemma flags_app (l l' : list log_record) : flags (l ++ l') = flags l ++ flags l'.
Proof. apply omap_app. Qed.

Lemma stops_first_same {A : Type} (m : M A) : flags m.1 = [] → stops_first m m.
Proof. unfold stops_first. by intros ->. Qed.

Lemma stops_first_bind {A B : Type} (ms mf : M A) (ks kf : A → M B) :
  stops_first ms mf → (∀ a, stops_first (ks a) (kf a)) →
  stops_first (ms ≫= ks) (mf ≫= kf).
Proof.
  unfold stops_first. destruct mf as [lf rf]. cbn [fst snd].
  destruct (flags lf) as [|r rest] eqn:Hlf.
  - intros -> Hk. destruct rf as [a|e].
    2:{ rewrite bind_raise. cbn [fst snd]. by rewrite Hlf. }
    rewrite !bind_ok. cbn [fst snd]. rewrite flags_app, Hlf. cbn [app].
    specialize (Hk a). destruct (flags (kf a).1) as [|r rest].
    + by rewrite Hk.
    + by rewrite flags_app, Hlf.
  - intros [Hms Hrs] _. destruct ms as [ls rs]. cbn [fst snd] in *. subst rs.
    rewrite bind_raise. cbn [fst snd].
    destruct rf as [a|e]; [rewrite bind_ok|rewrite bind_raise]; cbn [fst snd];
      rewrite ?flags_app, Hlf; done.
Qed.

Lemma stops_first_flag (r : rule) : stops_first (flag true r) (flag false r).
Proof. done. Qed.

Lemma stops_first_when (b : bool) (r : rule) :
  stops_first (when b (flag true r)) (when b (flag false r)).
Proof. by destruct b. Qed.

Lemma stops_first_mul (z : Z) (f : spec_float) :
  stops_first (int_mul_float z f) (int_mul_float z f).
Proof.
  apply stops_first_same. by destruct (int_mul_float_log z f) as [-> | [x ->]].
Qed.

Lemma validate_block_stops_first (obj : dict) :
  stops_first (validate_block obj true) (validate_block obj false).
Proof.
  unfold validate_block.
  destruct (block_schema obj); cbn [negb]; [|done].
  repeat match goal with
         | |- stops_first (when _ (flag _ _)) _ => apply stops_first_when
         | |- stops_first (when ?b (emit _ _)) _ => by destruct b
         | |- stops_first (flag _ _) _ => apply stops_first_flag
         | |- stops_first (int_mul_float _ _) _ => apply stops_first_mul
         | |- stops_first (_ ≫= _) _ => apply stops_first_bind; [|intros ?]
         | |- context [match ?x with _ => _ end] => destruct x
         | |- _ => done
         end.
Qed.

(** X14: strict mode stops at the first rule that soft mode would report.
    When [validate_block] in soft mode flags no rule, the strict run of
    the same record logs the same and ends the same; when the soft run
    flags rules, the strict run logs the first of them, no other, and
    raises [BlockValidationError] for it. *)
Theorem strict_stops_at_first_flag (obj : dict) :
  match flags (validate_block obj false).1 with
  | [] => validate_block obj true = validate_block obj false
  | r :: _ =>
      flags (validate_block obj true).1 = [r]
      ∧ (validate_block obj true).2 = Raise (BlockValidationError r)
  end.
Proof. apply validate_block_stops_first. Qed.

End MoreModeProps.

(** ** What [read_block] returns *)

Section MoreReadProps.
Context `{JsonLib} `{Schemas} `{CodecLib}.

Lemma when_flag_ok (b : bool) (r : rule) (k : unit → M unit) (log : list log_record) :
  (when b (flag true r) ≫= k) = (log, Ok tt) → b = false ∧ k tt = (log, Ok tt).
Proof.
  destruct b; [done|]. cbn [when]. rewrite bind_ret. done.
Qed.

(** A strict run that returns has passed every check. *)
Lemma validate_block_strict_ok (obj : dict) (log : list log_record) :
  validate_block obj true = (log, Ok tt) →
  eq_str (get obj "status") "ok" = true →
  log = []
  ∧ block_schema obj = true
  ∧ ∃ text encoding bytes recorded_size,
      get_default obj "text" (VStr "") = VStr text
      ∧ get_default obj "encoding" (VStr "utf-8") = VStr encoding
      ∧ str_encode encoding text = Some bytes
      ∧ Z.of_nat (String.length text) ≤ 20000
      ∧ Z.of_nat (length bytes) ≤ 1048576
      ∧ as_int (get_default obj "size_bytes" (VInt 0)) = Some recorded_size
      ∧ within_tolerance (Z.of_nat (length bytes)) recorded_size
      ∧ get_default obj "hash_sha256" (VStr "") = VStr (sha256_hexdigest bytes)
      ∧ ∀ seq total_seqs,
          as_int (get obj "seq") = Some seq →
          as_int (get obj "total_seqs") = Some total_seqs →
          1 ≤ seq ≤ total_seqs.
Proof.
  unfold validate_block. intros Hv Hstatus.
  destruct (block_schema obj); cbn [negb] in Hv; [|done].
  destruct (get_default obj "text" (VStr "")) as [| | |text| |] eqn:Htext;
    cbn [py_len] in Hv; try done.
  all: rewrite bind_ret in Hv; apply when_flag_ok in Hv as [Hlen Hv].
  2,3: by destruct (get_default obj "encoding" (VStr "utf-8")).
  destruct (get_default obj "encoding" (VStr "utf-8")) as [| | |encoding| |] eqn:Henc;
    try done.
  destruct (str_encode encoding text) as [bytes|] eqn:Hbytes; [|done].
  rewrite bind_ret in Hv. apply when_flag_ok in Hv as [Hsize Hv].
  destruct (as_int (get_default obj "size_bytes" (VInt 0))) as [recorded_size|] eqn:Hrec;
    [|done].
  rewrite bind_ret in Hv.
  destruct (int_mul_float_log recorded_size c_0_08) as [Hm | [allow Hm]];
    rewrite Hm in Hv; [done|].
  change (([], Ok allow) : M spec_float) with (mret allow : M spec_float) in Hv.
  rewrite bind_ret in Hv. apply when_flag_ok in Hv as [Htol Hv].
  apply when_flag_ok in Hv as [Hhash Hv].
  assert (Hseq : ∀ seq total_seqs,
             as_int (get obj "seq") = Some seq →
             as_int (get obj "total_seqs") = Some total_seqs →
             1 ≤ seq ≤ total_seqs).
  { intros seq total_seqs Hs Ht. rewrite Hs, Ht in Hv.
    apply when_flag_ok in Hv as [Hin _].
    apply negb_false_iff, andb_true_iff in Hin. lia. }
  assert (Hlog : log = []).
  { destruct (get obj "status") as [| | |status| |]; try done.
    cbn [eq_str] in Hstatus. apply bool_decide_eq_true in Hstatus as ->.
    destruct (as_int (get obj "seq")), (as_int (get obj "total_seqs"));
      [apply when_flag_ok in Hv as [_ Hv]|rewrite bind_ret in Hv..].
    all: rewrite !bool_decide_false in Hv by done; cbn in Hv.
    all: by injection Hv as <-. }
  split; [done|]. split; [done|]. exists text, encoding, bytes, recorded_size.
  repeat split; try done.
  - by apply Z.ltb_ge in Hlen.
  - by apply Z.ltb_ge in Hsize.
  - unfold within_tolerance. destruct (recorded_size =? 0).
    + apply negb_false_iff, Z.eqb_eq in Htol. done.
    + eauto.
  - apply negb_false_iff in Hhash.
    destruct (get_default obj "hash_sha256" (VStr "")); try done.
    cbn [eq_str] in Hhash. by apply bool_decide_eq_true in Hhash as ->.
  - by destruct (Hseq seq total_seqs).
  - by destruct (Hseq seq total_seqs).
Qed.

(** X15: a block that [read_block] returns with the status [ok] has
    passed every check, and nothing was logged: it conforms to the
    schema, its text has at most 20000 characters and encodes under its
    encoding to at most 1048576 bytes, whose number is within the
    tolerance of the recorded [size_bytes] and whose SHA-256 is the
    recorded [hash_sha256], and [seq] is between 1 and [total_seqs] when
    both are integers. *)
Theorem read_block_ok_is_checked
  (files : fs) (path : string) (log : list log_record) (data : dict) :
  read_block files path = (log, Ok data) →
  eq_str (get data "status") "ok" = true →
  log = []
  ∧ block_schema data = true
  ∧ ∃ text encoding bytes recorded_size,
      get_default data "text" (VStr "") = VStr text
      ∧ get_default data "encoding" (VStr "utf-8") = VStr encoding
      ∧ str_encode encoding text = Some bytes
      ∧ Z.of_nat (String.length text) ≤ 20000
      ∧ Z.of_nat (length bytes) ≤ 1048576
      ∧ as_int (get_default data "size_bytes" (VInt 0)) = Some recorded_size
      ∧ within_tolerance (Z.of_nat (length bytes)) recorded_size
      ∧ get_default data "hash_sha256" (VStr "") = VStr (sha256_hexdigest bytes)
      ∧ ∀ seq total_seqs,
          as_int (get data "seq") = Some seq →
          as_int (get data "total_seqs") = Some total_seqs →
          1 ≤ seq ≤ total_seqs.
Proof.
  unfold read_block. intros Hread Hstatus.
  destruct (files !! path) as [content|]; [|done].
  destruct (json_loads content) as [[| | | | |obj]|]; try done.
  destruct (validate_block obj _) as [l [[]|e]] eqn:Hv; [|done].
  rewrite bind_ok in Hread. cbn in Hread. injection Hread as <- <-.
  rewrite Hstatus in Hv. rewrite app_nil_r.
  by apply validate_block_strict_ok.
Qed.

End MoreReadProps.

(** ** Soft mode *)

Section SoftProps.
Context `{JsonLib} `{Schemas} `{CodecLib}.

Lemma warns_bind {A B : Type} (m : M A) (k : A → M B) :
  warns m → (∀ a, warns (k a)) → warns (m ≫= k).
Proof.
  destruct m as [l [a|e]]; intros [Hr Hl] Hk; [|done].
  rewrite bind_ok. destruct (Hk a) as [Hkr Hkl]. split; [done|].
  cbn [fst] in *. by apply Forall_app.
Qed.

Lemma warns_ret {A : Type} (a : A) : warns (mret a : M A).
Proof. split; [done|constructor]. Qed.

Lemma warns_when_flag (b : bool) (r : rule) : warns (when b (flag false r)).
Proof. destruct b; [|apply warns_ret]. split; [done|by repeat constructor]. Qed.

Lemma float_of_int_mul (z : Z) (x f : spec_float) :
  float_of_int z = Ok x → int_mul_float z f = mret (SFmul prec emax x f).
Proof. unfold int_mul_float. by intros ->. Qed.

Lemma validate_block_warns
  (obj : dict) (text encoding status : string) (bytes : list Z)
  (recorded_size : Z) (x : spec_float) :
  block_schema obj = true →
  get_default obj "text" (VStr "") = VStr text →
  get_default obj "encoding" (VStr "utf-8") = VStr encoding →
  str_encode encoding text = Some bytes →
  as_int (get_default obj "size_bytes" (VInt 0)) = Some recorded_size →
  float_of_int recorded_size = Ok x →
  get obj "status" = VStr status →
  warns (validate_block obj false).
Proof.
  intros Hschema Htext Henc Hbytes Hrec Hfloat Hstatus. unfold validate_block.
  rewrite Hschema, Htext, Henc, Hbytes, Hrec, Hstatus.
  cbn [negb py_len]. rewrite bind_ret.
  apply warns_bind; [apply warns_when_flag|intros _].
  rewrite bind_ret.
  apply warns_bind; [apply warns_when_flag|intros _].
  rewrite bind_ret, (float_of_int_mul _ _ _ Hfloat), bind_ret.
  apply warns_bind; [apply warns_when_flag|intros _].
  apply warns_bind; [apply warns_when_flag|intros _].
  apply warns_bind.
  { destruct (as_int (get obj "seq")), (as_int (get obj "total_seqs"));
      try apply warns_ret. apply warns_when_flag. }
  intros _. destruct (_ || _); [|apply warns_ret].
  split; [done|by repeat constructor].
Qed.

(** X16: [read_block] returns a block whose status is not [ok] whatever
    the checks of length, size, hash and sequence say: when the file
    holds a JSON object that conforms to the schema, with a text that
    encodes under its encoding and an integer [size_bytes] in the range
    of a float, [read_block] returns the object, and what it logs are
    warnings. *)
Theorem read_block_returns_flagged_block
  (files : fs) (path content : string) (data : dict)
  (text encoding status : string) (bytes : list Z)
  (recorded_size : Z) (x : spec_float) :
  files !! path = Some content →
  json_loads content = Some (VDict data) →
  get data "status" = VStr status →
  status ≠ "ok" →
  block_schema data = true →
  get_default data "text" (VStr "") = VStr text →
  get_default data "encoding" (VStr "utf-8") = VStr encoding →
  str_encode encoding text = Some bytes →
  as_int (get_default data "size_bytes" (VInt 0)) = Some recorded_size →
  float_of_int recorded_size = Ok x →
  (read_block files path).2 = Ok data
  ∧ Forall (λ rec, is_warning rec = true) (read_block files path).1.
Proof.
  intros Hfile Hload Hstatus Hne Hschema Htext Henc Hbytes Hrec Hfloat.
  unfold read_block. rewrite Hfile, Hload, Hstatus. cbn [eq_str].
  rewrite bool_decide_false by done.
  destruct (validate_block_warns data text encoding status bytes recorded_size x)
    as [Hr Hl]; try done.
  unfold raised in Hr.
  destruct (validate_block data false) as [l [[]|e]]; [|done].
  rewrite bind_ok. cbn [fst snd mret M_ret]. by rewrite app_nil_r.
Qed.

Lemma flags_bind_l {A B : Type} (m : M A) (k : A → M B) (r : rule) :
  r ∈ flags m.1 → r ∈ flags (m ≫= k).1.
Proof.
  destruct m as [l [a|e]]; [|done]. rewrite bind_ok. cbn [fst].
  rewrite flags_app. set_solver.
Qed.

Lemma flags_bind_r {A B : Type} (m : M A) (k : A → M B) (a : A) (r : rule) :
  m.2 = Ok a → r ∈ flags (k a).1 → r ∈ flags (m ≫= k).1.
Proof.
  destruct m as [l res]. cbn [snd]. intros ->. rewrite bind_ok. cbn [fst].
  rewrite flags_app. set_solver.
Qed.

Lemma when_flag_soft (b : bool) (r : rule) : (when b (flag false r)).2 = Ok tt.
Proof. by destruct b. Qed.

(** X17: a recorded size of zero, which is also what a record without
    [size_bytes] counts as, is a mismatch for every text that is not
    empty: when the text encodes to at least one byte, soft mode flags
    the size tolerance, and strict mode raises [BlockValidationError]. *)
Theorem missing_size_is_flagged
  (obj : dict) (text encoding : string) (bytes : list Z) :
  block_schema obj = true →
  get_default obj "text" (VStr "") = VStr text →
  get_default obj "encoding" (VStr "utf-8") = VStr encoding →
  str_encode encoding text = Some bytes →
  bytes ≠ [] →
  as_int (get_default obj "size_bytes" (VInt 0)) = Some 0 →
  SizeTolerance ∈ flags (validate_block obj false).1
  ∧ ∃ r, (validate_block obj true).2 = Raise (BlockValidationError r).
Proof.
  intros Hschema Htext Henc Hbytes Hne Hrec.
  assert (Hsoft : SizeTolerance ∈ flags (validate_block obj false).1).
  { unfold validate_block. rewrite Hschema, Htext, Henc, Hbytes, Hrec.
    cbn [negb py_len]. rewrite bind_ret.
    eapply flags_bind_r; [apply when_flag_soft|]. rewrite bind_ret.
    eapply flags_bind_r; [apply when_flag_soft|]. rewrite bind_ret.
    change (int_mul_float 0 c_0_08) with (mret (S754_zero false) : M spec_float).
    rewrite bind_ret. apply flags_bind_l.
    destruct bytes; [done|]. cbn. set_solver. }
  split; [done|].
  pose proof (validate_block_stops_first obj) as Hfirst. unfold stops_first in Hfirst.
  destruct (flags (validate_block obj false).1) as [|r rest].
  - by apply elem_of_nil in Hsoft.
  - exists r. by destruct Hfirst.
Qed.

End SoftProps.

(** ** The report writers, call after call *)

Section MoreWriterProps.
Context `{JsonLib} `{Schemas}.



(** X20: a result is written once: after a [write_result] that returns,
    the file it names exists, and a later [write_result] for the same
    block, whatever its other arguments, changes no file; when it
    returns, it returns the same path and logs that the file exists. *)
Theorem write_result_once
  (io io' : out_plan) (files : fs)
  (base_dir block_id model model' analysis_version analysis_version' : string)
  (analysis_obj analysis_obj' : dict) (completed_at_iso completed_at_iso' p : string) :
  let r := write_result io files base_dir block_id model analysis_version
             analysis_obj completed_at_iso in
  let r' := write_result io' r.1 base_dir block_id model' analysis_version'
              analysis_obj' completed_at_iso' in
  r.2.2 = Ok p →
  exists_ r.1 p = true
  ∧ r'.1 = r.1
  ∧ (raised r'.2 = false → r'.2 = ([(INFO, ResultExists p)], Ok p)).
Proof.
  cbn zeta. intros Hr.
  assert (Hp : p = result_file base_dir block_id
               ∧ exists_ (write_result io files base_dir block_id model
                            analysis_version analysis_obj completed_at_iso).1 p = true).
  { revert Hr. unfold write_result. fold (result_file base_dir block_id).
    destruct (payload_schema analysis_obj); cbn [negb]; [|done].
    destruct (result_schema _); cbn [negb]; [|done].
    destruct (mkdir_fails io); [done|].
    destruct (exists_ files _) eqn:Hex; [by cbn; intros [= <-]|].
    destruct (dump_fails io); [done|]. cbn. intros [= <-].
    split; [done|]. unfold exists_. by rewrite lookup_insert_eq. }
  destruct Hp as [-> Hex]. split; [done|].
  set (files' := (write_result io files base_dir block_id model analysis_version
                    analysis_obj completed_at_iso).1) in *.
  unfold write_result at 1 2 3. fold (result_file base_dir block_id).
  destruct (payload_schema analysis_obj'); cbn [negb]; [|done].
  destruct (result_schema _); cbn [negb]; [|done].
  destruct (mkdir_fails io'); [done|]. by rewrite Hex.
Qed.



End MoreWriterProps.

(** ** From the transitions to the pending tasks *)

Section HandOverProps.
Context `{DateLib}.

Lemma iter_pending_returns_pending
  (items tasks : list dict) (log : list log_record) :
  iter_pending items = (log, Ok tasks) → Forall (λ t, is_pending t = true) tasks.
Proof.
  unfold iter_pending, sort_keyed.
  destruct (mapM pending_key _) as [l [keyed|e]] eqn:Hk; [|done].
  rewrite bind_ok. destruct (sort_from [] keyed) as [sorted|e] eqn:Hs; [|done].
  rewrite bind_ok. cbn. intros [= _ <-].
  apply mapM_pending_key_ok in Hk as [Hts _].
  destruct (sort_from_spec [] keyed sorted) as [Hperm _]; [constructor|done|].
  cbn in Hperm. rewrite Hperm, Hts. apply Forall_forall. intros t Ht.
  apply list_elem_of_filter in Ht as [Ht _]. by apply Is_true_true.
Qed.

Lemma transitioned_not_pending (tr : transition) (task : dict) :
  is_pending (match table tr (get task "status") with
              | Mutated => updated tr task
              | _ => task
              end) = false.
Proof.
  unfold is_pending.
  destruct tr; cbn [table];
    repeat match goal with
           | |- context [eq_str (get task "status") ?s] =>
               destruct (eq_str (get task "status") s) eqn:?
           end; cbn [orb]; try (by get_updated);
    destruct (get task "status") as [| | |s| |]; try done;
    cbn [eq_str] in *;
    repeat match goal with
           | Hs : bool_decide (_ = _) = true |- _ =>
               apply bool_decide_eq_true in Hs; subst
           end; done.
Qed.

(** X22: a task that was asked a transition is not handed out again:
    after [mark_in_progress], [mark_done] or [mark_error] for an id that
    a task has, whatever the call reported, that task keeps its id, is
    not pending, and is not among the tasks [iter_pending] returns for
    the new list. *)
Theorem transitioned_task_is_not_pending
  (tr : transition) (items items' tasks : list dict) (task_id : string)
  (i : nat) (task : dict) (log log' : list log_record) :
  find_task items task_id = Some (i, task) →
  run tr items task_id = (log, Ok items') →
  iter_pending items' = (log', Ok tasks) →
  ∃ task',
    items' !! i = Some task'
    ∧ get task' "id" = get task "id"
    ∧ is_pending task' = false
    ∧ task' ∉ tasks.
Proof.
  intros Hf Hrun Hpending.
  destruct (run_found tr items task_id i task Hf) as (l & _ & Hrun').
  rewrite Hrun in Hrun'. injection Hrun' as _ ->.
  apply find_task_Some in Hf as [Hi _].
  pose proof (transitioned_not_pending tr task) as Hnot.
  apply iter_pending_returns_pending in Hpending.
  exists (match table tr (get task "status") with
          | Mutated => updated tr task
          | _ => task
          end).
  split; [|split; [|split; [done|]]].
  - destruct (table tr (get task "status")); try done.
    apply list_lookup_insert_eq. by eapply lookup_lt_Some.
  - destruct (table tr (get task "status")); try done. apply get_id_updated.
  - intros Hin. rewrite Forall_forall in Hpending.
    specialize (Hpending _ Hin). congruence.
Qed.

End HandOverProps.

(** * The further properties on the sample data *)

(** ** Loading and saving *)

Lemma load_queue_crlf_witness :
  Forall (λ l, one_line l = true) Sample.two_lines
  ∧ @load_queue Ref.json Ref.schemas
      (<["queue.jsonl" := file_of crlf Sample.two_lines]> ∅) "queue.jsonl"
    = @load_queue Ref.json Ref.schemas
        (<["queue.jsonl" := file_of newline Sample.two_lines]> ∅) "queue.jsonl".
Proof.
  assert (Hlines : Forall (λ l, one_line l = true) Sample.two_lines)
    by (repeat constructor).
  split; [exact Hlines|].
  exact (@load_queue_crlf Ref.json Ref.schemas ∅ "queue.jsonl" Sample.two_lines Hlines).
Defined.

Lemma save_writes_queue_witness :
  (∅ : fs) !! "tmpq0x1e" = None
  ∧ @save_queue_atomic Ref.json (fault_free "tmpq0x1e") ∅ "queue.jsonl" Sample.queue
    = (<["queue.jsonl" :=
           file_of newline ((λ task, Ref.dumps (VDict task)) <$> Sample.queue)]> ∅,
       ([(INFO, QueueSaved "queue.jsonl")], Ok tt)).
Proof.
  split; [reflexivity|].
  apply (@save_writes_queue Ref.json (fault_free "tmpq0x1e") ∅ "queue.jsonl"
           Sample.queue); reflexivity.
Defined.

Lemma load_save_load_witness :
  (@load_queue Ref.json Ref.schemas Sample.disk "queue.jsonl").2 = Ok Sample.queue
  ∧ Forall (@round_trips Ref.json) Sample.queue
  ∧ @load_queue Ref.json Ref.schemas
      (@save_queue_atomic Ref.json (fault_free "tmpq0x2f") Sample.disk "copy.jsonl"
         Sample.queue).1 "copy.jsonl"
    = ([(INFO, Loaded 3 0)], Ok Sample.queue).
Proof.
  assert (Hload : (@load_queue Ref.json Ref.schemas Sample.disk "queue.jsonl").2
                  = Ok Sample.queue) by (vm_compute; reflexivity).
  assert (Hrt : Forall (@round_trips Ref.json) Sample.queue)
    by (repeat constructor; vm_compute; reflexivity).
  split; [exact Hload|]. split; [exact Hrt|].
  exact (@load_save_load Ref.json Ref.schemas (fault_free "tmpq0x2f") Sample.disk
           "queue.jsonl" "copy.jsonl" Sample.queue Hload Hrt eq_refl).
Defined.

(** ** Pending tasks *)

Lemma iter_pending_needs_integer_priority_witness :
  is_pending Sample.unranked = true
  ∧ raised (@iter_pending Ref.dates [Sample.t1; Sample.unranked]) = true.
Proof.
  split; [reflexivity|].
  apply (@iter_pending_needs_integer_priority Ref.dates
           [Sample.t1; Sample.unranked] Sample.unranked);
    [apply list_elem_of_further, list_elem_of_here|reflexivity|reflexivity].
Defined.

Lemma iter_pending_missing_created_at_witness :
  get Sample.t1 "created_at" = VNone
  ∧ (@iter_pending Ref.dates
       [Sample.t1; Sample.task "n" "pending" 5 "2024-01-01T00:00:00"]).2
    = Raise TypeError.
Proof.
  split; [reflexivity|].
  exact (proj1 (@iter_pending_missing_created_at Ref.dates Sample.t1
                  (Sample.task "n" "pending" 5 "2024-01-01T00:00:00") 5
                  "2024-01-01T00:00:00"
                  eq_refl eq_refl eq_refl eq_refl eq_refl eq_refl)).
Defined.

Lemma iter_pending_by_priority_witness :
  @iter_pending Ref.dates [Sample.dated; Sample.finished; Sample.t1]
  = ([], Ok [Sample.t1; Sample.dated])
  ∧ by_priority [Sample.t1; Sample.dated].
Proof.
  assert (Hrun : @iter_pending Ref.dates [Sample.dated; Sample.finished; Sample.t1]
                 = ([], Ok [Sample.t1; Sample.dated])) by (vm_compute; reflexivity).
  split; [exact Hrun|].
  exact (proj2 (@iter_pending_by_priority Ref.dates _ _ _ Hrun)).
Defined.

Lemma iter_pending_stable_witness :
  (∃ keyed,
     mapM (@pending_key Ref.dates)
       (filter (λ task, is_pending task) [Sample.dated; Sample.finished; Sample.t1])
     = ([], Ok keyed)
     ∧ comparable keyed.*1)
  ∧ ∃ tagged,
      stably_sorted tagged
      ∧ @iter_pending Ref.dates [Sample.dated; Sample.finished; Sample.t1]
        = ([], Ok ((λ kt, kt.2.2) <$> tagged)).
Proof.
  assert (Hk : ∃ keyed,
             mapM (@pending_key Ref.dates)
               (filter (λ task, is_pending task)
                  [Sample.dated; Sample.finished; Sample.t1])
             = ([], Ok keyed)
             ∧ comparable keyed.*1).
  { eexists. split; [vm_compute; reflexivity|].
    intros a b Ha Hb. apply list_elem_of_In in Ha, Hb. cbn in Ha, Hb.
    destruct Ha as [<-|[<-|[]]], Hb as [<-|[<-|[]]]; eexists; vm_compute; reflexivity. }
  split; [exact Hk|]. destruct Hk as (keyed & Hk & Hcmp).
  destruct (@iter_pending_stable Ref.dates _ _ keyed Hk Hcmp)
    as (tagged & _ & Hsorted & Hrun).
  by exists tagged.
Defined.

(** ** Transitions *)

Lemma terminal_tasks_stay_witness :
  find_task [Sample.t1; Sample.finished] "f" = Some (1%nat, Sample.finished)
  ∧ (run_all [Start; Fail "boom" "e.json" "2024-01-02T00:00:00Z";
              Complete "r.json" "2024-01-03T00:00:00Z"]
       [Sample.t1; Sample.finished] "f").2
    = Ok [Sample.t1; Sample.finished].
Proof.
  split; [reflexivity|].
  exact (terminal_tasks_stay
           [Start; Fail "boom" "e.json" "2024-01-02T00:00:00Z";
            Complete "r.json" "2024-01-03T00:00:00Z"]
           [Sample.t1; Sample.finished] "f" 1 Sample.finished eq_refl eq_refl).
Defined.

Lemma transitions_commute_witness :
  "t1" ≠ "a"
  ∧ after (Complete "r.json" "2024-01-03T00:00:00Z") "a"
      (after Start "t1" [Sample.t1; Sample.dated])
    = after Start "t1"
        (after (Complete "r.json" "2024-01-03T00:00:00Z") "a"
           [Sample.t1; Sample.dated]).
Proof.
  assert (Hne : "t1" ≠ "a") by discriminate.
  split; [exact Hne|].
  exact (transitions_commute Start (Complete "r.json" "2024-01-03T00:00:00Z")
           "t1" "a" [Sample.t1; Sample.dated] Hne).
Defined.

Lemma transitioned_task_is_not_pending_witness :
  ∃ items' tasks task',
    (run Start [Sample.t1; Sample.dated] "t1").2 = Ok items'
    ∧ (@iter_pending Ref.dates items').2 = Ok tasks
    ∧ items' !! 0%nat = Some task'
    ∧ is_pending task' = false
    ∧ task' ∉ tasks.
Proof.
  assert (Hrun : ∃ log items' log' tasks,
             run Start [Sample.t1; Sample.dated] "t1" = (log, Ok items')
             ∧ @iter_pending Ref.dates items' = (log', Ok tasks)).
  { do 4 eexists. split; [reflexivity|vm_compute; reflexivity]. }
  destruct Hrun as (log & items' & log' & tasks & Hrun & Hpending).
  destruct (@transitioned_task_is_not_pending Ref.dates Start
              [Sample.t1; Sample.dated] items' tasks "t1" 0 Sample.t1 log log'
              eq_refl Hrun Hpending) as (task' & Hi & _ & Hnot & Hout).
  exists items', tasks, task'. rewrite Hrun, Hpending. by repeat split.
Defined.

(** ** Blocks *)

Lemma read_block_ok_is_checked_witness :
  @read_block Ref.json Ref.schemas Ref.codecs
    (<["b1.json" := Ref.dumps (VDict (Sample.block "ok" 2))]> ∅) "b1.json"
  = ([], Ok (Sample.block "ok" 2))
  ∧ @block_schema Ref.schemas (Sample.block "ok" 2) = true
  ∧ ∃ bytes,
      @str_encode Ref.codecs "utf-8" "hi" = Some bytes
      ∧ within_tolerance (Z.of_nat (length bytes)) 2
      ∧ get_default (Sample.block "ok" 2) "hash_sha256" (VStr "")
        = VStr (@sha256_hexdigest Ref.codecs bytes).
Proof.
  assert (Hread : @read_block Ref.json Ref.schemas Ref.codecs
                    (<["b1.json" := Ref.dumps (VDict (Sample.block "ok" 2))]> ∅)
                    "b1.json"
                  = ([], Ok (Sample.block "ok" 2))) by (vm_compute; reflexivity).
  split; [exact Hread|].
  destruct (@read_block_ok_is_checked Ref.json Ref.schemas Ref.codecs _ _ _ _
              Hread eq_refl)
    as (_ & Hschema & text & encoding & bytes & size
        & Htext & Henc & Hbytes & _ & _ & Hsize & Htol & Hhash & _).
  split; [exact Hschema|]. exists bytes.
  injection Htext as <-. injection Henc as <-. injection Hsize as <-.
  by repeat split.
Defined.

Lemma read_block_returns_flagged_block_witness :
  get (Sample.block "damaged" 100) "status" = VStr "damaged"
  ∧ (@read_block Ref.json Ref.schemas Ref.codecs
       (<["b1.json" := Ref.dumps (VDict (Sample.block "damaged" 100))]> ∅)
       "b1.json").2
    = Ok (Sample.block "damaged" 100)
  ∧ Forall (λ rec, is_warning rec = true)
      (@read_block Ref.json Ref.schemas Ref.codecs
         (<["b1.json" := Ref.dumps (VDict (Sample.block "damaged" 100))]> ∅)
         "b1.json").1.
Proof.
  split; [reflexivity|].
  assert (Hload : @json_loads Ref.json (Ref.dumps (VDict (Sample.block "damaged" 100)))
                  = Some (VDict (Sample.block "damaged" 100)))
    by (vm_compute; reflexivity).
  assert (Hfloat : ∃ x, float_of_int 100 = Ok x) by (eexists; vm_compute; reflexivity).
  destruct Hfloat as [x Hfloat].
  assert (Hne : "damaged" ≠ "ok") by discriminate.
  exact (@read_block_returns_flagged_block Ref.json Ref.schemas Ref.codecs
           (<["b1.json" := Ref.dumps (VDict (Sample.block "damaged" 100))]> ∅)
           "b1.json" _ (Sample.block "damaged" 100) "hi" "utf-8" "damaged"
           [104; 105] 100 x
           (lookup_insert_eq _ _ _) Hload eq_refl Hne eq_refl eq_refl eq_refl
           eq_refl eq_refl Hfloat).
Defined.

Lemma missing_size_is_flagged_witness :
  get (Sample.block "damaged" 0) "size_bytes" = VInt 0
  ∧ SizeTolerance
      ∈ flags (@validate_block Ref.schemas Ref.codecs (Sample.block "damaged" 0)
                 false).1
  ∧ ∃ r, (@validate_block Ref.schemas Ref.codecs (Sample.block "damaged" 0) true).2
         = Raise (BlockValidationError r).
Proof.
  split; [reflexivity|].
  assert (Hne : [104; 105] ≠ ([] : list Z)) by discriminate.
  exact (@missing_size_is_flagged Ref.schemas Ref.codecs (Sample.block "damaged" 0)
           "hi" "utf-8" [104; 105] eq_refl eq_refl eq_refl eq_refl Hne eq_refl).
Defined.

(** ** Reports *)


Lemma write_result_once_witness :
  exists_ Sample.archive (result_file "/data" "b1") = true
  ∧ (@write_result Ref.json Ref.schemas no_fault Sample.archive "/data" "b1"
       "model-y" "2.0" (<["summary" := VStr "again"]> ∅) "2024-01-02T00:00:00Z").1
    = Sample.archive.
Proof.
  assert (Hret : (@write_result Ref.json Ref.schemas no_fault Sample.one_report
                    "/data" "b1" "model-x" "1.0" (<["summary" := VStr "fine"]> ∅)
                    "2024-01-01T00:05:00Z").2.2
                 = Ok (result_file "/data" "b1")) by (vm_compute; reflexivity).
  destruct (@write_result_once Ref.json Ref.schemas no_fault no_fault
              Sample.one_report "/data" "b1" "model-x" "model-y" "1.0" "2.0"
              (<["summary" := VStr "fine"]> ∅) (<["summary" := VStr "again"]> ∅)
              "2024-01-01T00:05:00Z" "2024-01-02T00:00:00Z"
              (result_file "/data" "b1") Hret)
    as (Hex & Hsame & _).
  split; [exact Hex|exact Hsame].
Defined.

